(** * The reference decorators of the container (refer/)

    A shallow embedding of [BuildReferencesDecorator] and
    [RunReferencesDecorator] (src/refer/BuildReferencesDecorator.ts and the
    run decorator that follows it), with the collaborators they call:
    the reference sets behind [IReferences], the factory and lifecycle
    capabilities of the components, and the bulk [Opener] / [Closer].

    JavaScript values are mutable and methods may throw, so every call is a
    computation [M St A := St -> outcome A * St]: it returns a value or
    throws, and in both cases hands back the state it left behind (a throw
    does not undo what was done before it). *)

From Stdlib Require Import List String Bool Arith Lia.
Import ListNotations.
Local Open Scope list_scope.

(** ** Values *)

(** Modelled from the spec: the structured descriptor (section 3; the class
    Descriptor of pip-services-commons-node is not under src/). Five fields,
    each of which may be null ([None]); the constructor stores its
    arguments and the getters read them back. *)
Record Descriptor := new_Descriptor {
  getGroup : option string;
  getType : option string;
  getKind : option string;
  getName : option string;
  getVersion : option string
}.

(** What the code passes around as [locator: any] and what a [canCreate]
    probe may answer: null, a boolean, a string or a Descriptor. *)
Inductive locator :=
| LNull
| LBool (b : bool)
| LStr (s : string)
| LDescriptor (d : Descriptor).

(** JavaScript truthiness, as tested by [if (component.canCreate(locator))]. *)
Definition truthy (v : locator) : bool :=
  match v with
  | LNull => false
  | LBool b => b
  | LStr s => negb (String.eqb s "")
  | LDescriptor _ => true
  end.

(** A component is an object reference; what it can do is looked up in the
    object table below. *)
Definition handle := nat.

(** Modelled from the spec: the errors (section 7). ReferenceException is
    the "reference not found" error with its correlation id and locator;
    TypeError is what a call of a missing method raises; JsError stands for
    any error a component or a reference set raises. *)
Inductive error :=
| ReferenceException (correlationId : option string) (loc : locator)
| TypeError (msg : string)
| JsError (msg : string).

Inductive outcome (A : Type) :=
| Ret (a : A)
| Throw (e : error).
Arguments Ret {A} a.
Arguments Throw {A} e.

(** ** Computations *)

Definition M (St A : Type) : Type := St -> outcome A * St.

Definition ret {St A} (a : A) : M St A := fun s => (Ret a, s).

Definition throw {St A} (e : error) : M St A := fun s => (Throw e, s).

Definition bind {St A B} (c : M St A) (k : A -> M St B) : M St B :=
  fun s =>
    match c s with
    | (Ret a, s') => k a s'
    | (Throw e, s') => (Throw e, s')
    end.

(** [try { c } catch (ex) { h ex }] *)
Definition try_catch {St A} (c : M St A) (h : error -> M St A) : M St A :=
  fun s =>
    match c s with
    | (Ret a, s') => (Ret a, s')
    | (Throw e, s') => h e s'
    end.

(** Runs [c] and hands its outcome to the continuation instead of throwing. *)
Definition attempt {St A} (c : M St A) : M St (outcome A) :=
  fun s => let (r, s') := c s in (Ret r, s').

Declare Scope js_scope.
Delimit Scope js_scope with js.
Notation "x <- c ;; k" := (bind c (fun x => k))
  (at level 61, c at next level, right associativity) : js_scope.
Notation "c ;;; k" := (bind c (fun _ => k))
  (at level 61, right associativity) : js_scope.
Local Open Scope js_scope.

(** ** The world seen by the collaborators *)

Record Reference := new_Reference {
  getLocator : locator;
  getComponent : handle
}.

(** Reference sets are mutable objects that several decorators may share, so
    they live in a store indexed by the identity of the set; [heap] is the
    private state of the components. *)
Record World (Heap : Type) := new_World {
  sets : nat -> list Reference;
  heap : Heap
}.
Arguments new_World {Heap} sets heap.
Arguments sets {Heap} w.
Arguments heap {Heap} w.

(** Modelled from the spec: the factory and openable capabilities a
    component may expose (section 6; IFactory and IOpenable are not under
    src/). A missing method is [None]; a method may read and change the
    world and may throw. A lifecycle method that reports an error to its
    completion callback is modelled as throwing that error, and the call is
    followed through to its completion. *)
Module Component.
Record t (Heap : Type) := Build {
  canCreate : option (locator -> M (World Heap) locator);
  create : option (locator -> M (World Heap) (option handle));
  open : option (option string -> M (World Heap) unit);
  close : option (option string -> M (World Heap) unit)
}.
Arguments Build {Heap} canCreate create open close.
Arguments canCreate {Heap} t.
Arguments create {Heap} t.
Arguments open {Heap} t.
Arguments close {Heap} t.
End Component.

(** The calls the decorators make on components, in the order made. *)
Inductive event :=
| EvCanCreate (component : handle) (loc : locator)
| EvCreate (component : handle) (loc : locator)
| EvOpen (component : handle) (correlationId : option string)
| EvClose (component : handle) (correlationId : option string).

(** The two kinds of call the build decorator makes. *)
Definition is_probe (ev : event) : bool :=
  match ev with
  | EvCanCreate _ _ => true
  | _ => false
  end.

Definition is_create (ev : event) : bool :=
  match ev with
  | EvCreate _ _ => true
  | _ => false
  end.

Record Sys (Heap : Type) := new_Sys {
  world : World Heap;
  trace : list event
}.
Arguments new_Sys {Heap} world trace.
Arguments world {Heap} s.
Arguments trace {Heap} s.

(** A computation on the world, run inside the system (the trace is kept). *)
Definition liftW {Heap A} (c : M (World Heap) A) : M (Sys Heap) A :=
  fun s => let (r, w) := c (world s) in (r, new_Sys w (trace s)).

(** A method call on a component, recorded in the trace. *)
Definition invoke {Heap A} (ev : event) (c : M (World Heap) A) : M (Sys Heap) A :=
  fun s => let (r, w) := c (world s) in (r, new_Sys w (trace s ++ [ev])).

Section Calls.
Context {Heap : Type} (object : handle -> Component.t Heap).

(** [component.canCreate(locator)] *)
Definition call_canCreate (component : handle) (loc : locator) : M (Sys Heap) locator :=
  match Component.canCreate (object component) with
  | Some f => invoke (EvCanCreate component loc) (f loc)
  | None => throw (TypeError "canCreate is not a function"%string)
  end.

(** [component.create(locator)] *)
Definition call_create (component : handle) (loc : locator) : M (Sys Heap) (option handle) :=
  match Component.create (object component) with
  | Some f => invoke (EvCreate component loc) (f loc)
  | None => throw (TypeError "create is not a function"%string)
  end.

(** [_.isFunction(component.m)] *)
Definition isFunction {A} (m : option A) : bool :=
  match m with
  | Some _ => true
  | None => false
  end.

(** [_.isFunction(component.canCreate) && _.isFunction(component.create)] *)
Definition is_factory (component : handle) : bool :=
  isFunction (Component.canCreate (object component))
  && isFunction (Component.create (object component)).

(** What it means for a registered component that it cannot, or can, create
    a locator. A component declines when it lacks one of the two factory
    methods or when its probe, whenever it is asked, answers a falsy value;
    it accepts when it has both methods and its probe, whenever it is
    asked, answers a truthy value; it creates when its [create], whenever
    it is called, returns a component. *)
Definition declines (component : handle) (loc : locator) : Prop :=
  is_factory component = false
  \/ forall s, exists answer s',
       call_canCreate component loc s = (Ret answer, s') /\ truthy answer = false.

Definition accepts (component : handle) (loc : locator) : Prop :=
  is_factory component = true
  /\ forall s, exists answer s',
       call_canCreate component loc s = (Ret answer, s') /\ truthy answer = true.


(** [_.isFunction(component.open)] *)
Definition has_open (component : handle) : bool :=
  isFunction (Component.open (object component)).

(** [_.isFunction(component.close)] *)
Definition has_close (component : handle) : bool :=
  isFunction (Component.close (object component)).

End Calls.

(** ** IReferences *)

(** Modelled from the spec: the contract of a reference set (section 4.1;
    the interface IReferences of pip-services-commons-node is not under
    src/), which both the base and the parent of a decorator are typed with.
    An implementation is any object, so each method is an arbitrary
    computation on the world. The list a [find] returns is a fresh array. *)
Module IReferences.
Record t (Heap : Type) := Build {
  put : locator -> handle -> M (World Heap) unit;
  remove : locator -> M (World Heap) (option handle);
  removeAll : locator -> M (World Heap) (list handle);
  getAll : M (World Heap) (list handle);
  find : locator -> bool -> M (World Heap) (list handle)
}.
Arguments Build {Heap} put remove removeAll getAll find.
Arguments put {Heap} t loc component.
Arguments remove {Heap} t loc.
Arguments removeAll {Heap} t loc.
Arguments getAll {Heap} t.
Arguments find {Heap} t loc required.
End IReferences.

(** ** Locator matching *)

Definition match_field (a b : option string) : bool :=
  match a, b with
  | Some x, Some y => String.eqb x y
  | _, _ => true
  end.

Definition match_descriptor (d1 d2 : Descriptor) : bool :=
  match_field (getGroup d1) (getGroup d2)
  && match_field (getType d1) (getType d2)
  && match_field (getKind d1) (getKind d2)
  && match_field (getName d1) (getName d2)
  && match_field (getVersion d1) (getVersion d2).

(** Modelled from the spec: the matching rule of the reference registry
    (pip-services-commons-node, not under src/). Two descriptors match when
    every pair of fields is equal or one side is a wildcard; any other pair
    of locators is compared structurally. *)
Definition matches (a b : locator) : bool :=
  match a, b with
  | LDescriptor d1, LDescriptor d2 => match_descriptor d1 d2
  | LStr s1, LStr s2 => String.eqb s1 s2
  | LBool b1, LBool b2 => Bool.eqb b1 b2
  | LNull, LNull => true
  | _, _ => false
  end.

(** ** The reference registry *)

(** Modelled from the spec: the Reference Registry (section 4.1; the class
    References of pip-services-commons-node is not under src/). A registry
    is the reference set stored under [id]. *)
Module References.
Section Registry.
Context {Heap : Type}.

Definition update (w : World Heap) (id : nat) (refs : list Reference) : World Heap :=
  new_World (fun j => if (j =? id) then refs else sets w j) (heap w).

Definition matching (loc : locator) (r : Reference) : bool :=
  matches (getLocator r) loc.

Fixpoint remove_first (loc : locator) (refs : list Reference)
  : option handle * list Reference :=
  match refs with
  | [] => (None, [])
  | r :: rest =>
    if matching loc r then (Some (getComponent r), rest)
    else let (c, rest') := remove_first loc rest in (c, r :: rest')
  end.

Definition put (id : nat) (loc : locator) (component : handle) : M (World Heap) unit :=
  fun w => (Ret tt, update w id (sets w id ++ [new_Reference loc component])).

Definition remove (id : nat) (loc : locator) : M (World Heap) (option handle) :=
  fun w =>
    let (c, refs) := remove_first loc (sets w id) in (Ret c, update w id refs).

Definition removeAll (id : nat) (loc : locator) : M (World Heap) (list handle) :=
  fun w =>
    (Ret (map getComponent (filter (matching loc) (sets w id))),
     update w id (filter (fun r => negb (matching loc r)) (sets w id))).

Definition getAll (id : nat) : M (World Heap) (list handle) :=
  fun w => (Ret (map getComponent (sets w id)), w).

Definition find (id : nat) (loc : locator) (required : bool) : M (World Heap) (list handle) :=
  fun w =>
    let components := map getComponent (filter (matching loc) (sets w id)) in
    if required && (List.length components =? 0)
    then (Throw (ReferenceException None loc), w)
    else (Ret components, w).

(** The registry stored under [id], seen through the interface. *)
Definition at_ (id : nat) : IReferences.t Heap :=
  IReferences.Build (put id) (remove id) (removeAll id) (getAll id) (find id).

End Registry.
End References.

(** ** ReferencesDecorator *)

(** Modelled from the spec: the Decorator Chain (section 4.2; the file
    refer/ReferencesDecorator.ts is not under src/). A decorator wraps one
    base set and one parent set; [getAll], [find], [remove], [removeAll]
    and [put] all go to the base set. *)
Module ReferencesDecorator.
Record t (Heap : Type) := Build {
  baseReferences : IReferences.t Heap;
  parentReferences : IReferences.t Heap
}.
Arguments Build {Heap} baseReferences parentReferences.
Arguments baseReferences {Heap} t.
Arguments parentReferences {Heap} t.

Section Decorator.
Context {Heap : Type}.

Definition put (this : t Heap) (loc : locator) (component : handle) : M (Sys Heap) unit :=
  liftW (IReferences.put (baseReferences this) loc component).

Definition remove (this : t Heap) (loc : locator) : M (Sys Heap) (option handle) :=
  liftW (IReferences.remove (baseReferences this) loc).

Definition removeAll (this : t Heap) (loc : locator) : M (Sys Heap) (list handle) :=
  liftW (IReferences.removeAll (baseReferences this) loc).

Definition getAll (this : t Heap) : M (Sys Heap) (list handle) :=
  liftW (IReferences.getAll (baseReferences this)).

Definition find (this : t Heap) (loc : locator) (required : bool) : M (Sys Heap) (list handle) :=
  liftW (IReferences.find (baseReferences this) loc required).

End Decorator.
End ReferencesDecorator.

(** ** BuildReferencesDecorator *)

Module BuildReferencesDecorator.
Section Build.
Context {Heap : Type} (object : handle -> Component.t Heap).

(** The loop of [findFactory] over [components]. *)
Fixpoint findFactory_scan (components : list handle) (loc : locator)
  : M (Sys Heap) (option handle) :=
  match components with
  | [] => ret None
  | component :: rest =>
    if is_factory object component then
      answer <- call_canCreate object component loc ;;
      if truthy answer then ret (Some component) else findFactory_scan rest loc
    else findFactory_scan rest loc
  end.

Definition findFactory (this : ReferencesDecorator.t Heap) (loc : locator)
  : M (Sys Heap) (option handle) :=
  components <- ReferencesDecorator.getAll this ;;
  findFactory_scan components loc.

Definition create (this : ReferencesDecorator.t Heap) (loc : locator)
  (factory : option handle) : M (Sys Heap) (option handle) :=
  match factory with
  | None => ret None
  | Some f => try_catch (call_create object f loc) (fun _ => ret None)
  end.

(** [a != null ? a : b] on a descriptor field. *)
Definition or_else (a b : option string) : option string :=
  match a with
  | Some _ => a
  | None => b
  end.

(** The two tests on [anotherLocator] ([== null] and [instanceof
    Descriptor]) are the single match on the probe's answer. *)
Definition clarifyLocator (this : ReferencesDecorator.t Heap) (loc : locator)
  (factory : option handle) : M (Sys Heap) locator :=
  match factory with
  | None => ret loc
  | Some f =>
    match loc with
    | LDescriptor descriptor =>
      anotherLocator <- call_canCreate object f loc ;;
      match anotherLocator with
      | LDescriptor anotherDescriptor =>
        ret (LDescriptor (new_Descriptor
          (or_else (getGroup descriptor) (getGroup anotherDescriptor))
          (or_else (getType descriptor) (getType anotherDescriptor))
          (or_else (getKind descriptor) (getKind anotherDescriptor))
          (or_else (getName descriptor) (getName anotherDescriptor))
          (or_else (getVersion descriptor) (getVersion anotherDescriptor))))
      | _ => ret loc
      end
    | _ => ret loc
    end
  end.

(** The body of [if (required && components.length == 0) { ... }]: it
    returns the local variables [locator] and [components] as it leaves
    them. The assignment to [locator] is made before [put] is called, so it
    survives a failing [put]; [components.push] comes after [put] inside the
    same [try], so a failing [put] skips it. *)
Definition build (this : ReferencesDecorator.t Heap) (loc : locator)
  (components : list handle) : M (Sys Heap) (locator * list handle) :=
  factory <- findFactory this loc ;;
  component <- create this loc factory ;;
  match component with
  | None => ret (loc, components)
  | Some c =>
    clarified <- attempt (clarifyLocator this loc factory) ;;
    match clarified with
    | Throw _ => ret (loc, components)
    | Ret loc' =>
      stored <- attempt (liftW (IReferences.put
                  (ReferencesDecorator.parentReferences this) loc' c)) ;;
      match stored with
      | Throw _ => ret (loc', components)
      | Ret _ => ret (loc', components ++ [c])
      end
    end
  end.

Definition find (this : ReferencesDecorator.t Heap) (loc : locator) (required : bool)
  : M (Sys Heap) (list handle) :=
  components <- ReferencesDecorator.find this loc false ;;
  vars <- (if required && (List.length components =? 0)
           then build this loc components
           else ret (loc, components)) ;;
  if required && (List.length (snd vars) =? 0)
  then throw (ReferenceException None (fst vars))
  else ret (snd vars).

End Build.
End BuildReferencesDecorator.

(** ** Opener and Closer *)

(** Modelled from the spec: the bulk open operation (sections 4.4 and 5;
    Opener of pip-services-commons-node is not under src/). A component is
    opened only if it exposes the capability; the components are opened one
    after the other and the first failure ends the batch. The result is the
    error handed to the completion callback, [None] for success. *)
Module Opener.
Section Opener.
Context {Heap : Type} (object : handle -> Component.t Heap).

Definition openOne (correlationId : option string) (component : handle)
  : M (Sys Heap) (option error) :=
  match Component.open (object component) with
  | Some f =>
    done <- attempt (invoke (EvOpen component correlationId) (f correlationId)) ;;
    match done with
    | Ret _ => ret None
    | Throw e => ret (Some e)
    end
  | None => ret None
  end.

Fixpoint open (correlationId : option string) (components : list handle)
  : M (Sys Heap) (option error) :=
  match components with
  | [] => ret None
  | component :: rest =>
    err <- openOne correlationId component ;;
    match err with
    | Some e => ret (Some e)
    | None => open correlationId rest
    end
  end.

End Opener.
End Opener.

(** Modelled from the spec: the bulk close operation (sections 4.4 and 5;
    Closer of pip-services-commons-node is not under src/), the mirror image
    of [Opener]. *)
Module Closer.
Section Closer.
Context {Heap : Type} (object : handle -> Component.t Heap).

Definition closeOne (correlationId : option string) (component : handle)
  : M (Sys Heap) (option error) :=
  match Component.close (object component) with
  | Some f =>
    done <- attempt (invoke (EvClose component correlationId) (f correlationId)) ;;
    match done with
    | Ret _ => ret None
    | Throw e => ret (Some e)
    end
  | None => ret None
  end.

Fixpoint close (correlationId : option string) (components : list handle)
  : M (Sys Heap) (option error) :=
  match components with
  | [] => ret None
  | component :: rest =>
    err <- closeOne correlationId component ;;
    match err with
    | Some e => ret (Some e)
    | None => close correlationId rest
    end
  end.

End Closer.
End Closer.

(** ** RunReferencesDecorator *)

Module RunReferencesDecorator.

(** The mutable field [_opened] of the decorator, next to the system it
    works on. The base and the parent never change and are passed as [this]. *)
Record State (Heap : Type) := new_State {
  _opened : bool;
  sys : Sys Heap
}.
Arguments new_State {Heap} _opened sys.
Arguments _opened {Heap} s.
Arguments sys {Heap} s.

Section Run.
Context {Heap : Type} (object : handle -> Component.t Heap).

(** A computation on the system, run by the decorator (the flag is kept). *)
Definition liftS {A} (c : M (Sys Heap) A) : M (State Heap) A :=
  fun st => let (r, s) := c (sys st) in (r, new_State (_opened st) s).

Definition set_opened (b : bool) : M (State Heap) unit :=
  fun st => (Ret tt, new_State b (sys st)).

Definition isOpen : M (State Heap) bool :=
  fun st => (Ret (_opened st), st).

(** [open] returns what it hands to [callback]: [None] for [callback(null)]. *)
Definition open (this : ReferencesDecorator.t Heap) (correlationId : option string)
  : M (State Heap) (option error) :=
  opened <- isOpen ;;
  if negb opened then
    components <- liftS (ReferencesDecorator.getAll this) ;;
    err <- liftS (Opener.open object correlationId components) ;;
    (match err with
     | None => set_opened true
     | Some _ => ret tt
     end) ;;;
    ret err
  else ret None.

(** [close] returns what it hands to [callback]. *)
Definition close (this : ReferencesDecorator.t Heap) (correlationId : option string)
  : M (State Heap) (option error) :=
  opened <- isOpen ;;
  if opened then
    components <- liftS (ReferencesDecorator.getAll this) ;;
    err <- liftS (Closer.close object correlationId components) ;;
    set_opened false ;;;
    ret err
  else ret None.

(** The calls to [Opener] and [Closer] below pass no callback: whatever
    error the operation reports is dropped. *)
Definition put (this : ReferencesDecorator.t Heap) (loc : locator) (component : handle)
  : M (State Heap) unit :=
  liftS (ReferencesDecorator.put this loc component) ;;;
  opened <- isOpen ;;
  if opened then
    liftS (Opener.openOne object None component) ;;; ret tt
  else ret tt.

(** [Closer.closeOne(null, component, null)] is called with whatever the
    base returned. When nothing was removed [component] is null, and the
    test of [component.close] raises a TypeError that leaves [remove]. *)
Definition remove (this : ReferencesDecorator.t Heap) (loc : locator)
  : M (State Heap) (option handle) :=
  component <- liftS (ReferencesDecorator.remove this loc) ;;
  opened <- isOpen ;;
  (if opened then
     match component with
     | Some c => liftS (Closer.closeOne object None c) ;;; ret tt
     | None => throw (TypeError "Cannot read property 'close' of null"%string)
     end
   else ret tt) ;;;
  ret component.

Definition removeAll (this : ReferencesDecorator.t Heap) (loc : locator)
  : M (State Heap) (list handle) :=
  components <- liftS (ReferencesDecorator.removeAll this loc) ;;
  opened <- isOpen ;;
  (if opened then
     liftS (Closer.close object None components) ;;; ret tt
   else ret tt) ;;;
  ret components.

End Run.
End RunReferencesDecorator.

(** ** ProcessContainer *)

(** The command line handling of src/ProcessContainer.ts. The arguments are
    the strings of [args: string[]]; the loops over [index] are recursions
    over the rest of the list, whose head is [args[index]] and whose second
    element, when there is one, is [args[index + 1]]. *)
Module ProcessContainer.

(** [nextArg] after
    [nextArg = nextArg && nextArg.startsWith('-') ? null : nextArg]: null at
    the end of the arguments and before an argument that starts with a dash
    (the empty string is falsy, and is kept). *)
Definition next_arg (rest : list string) : option string :=
  match rest with
  | [] => None
  | nextArg :: _ =>
    if negb (String.eqb nextArg "") && String.prefix "-" nextArg
    then None
    else Some nextArg
  end.

(** [arg == "--config" || arg == "-c"] *)
Definition is_config (arg : string) : bool :=
  String.eqb arg "--config" || String.eqb arg "-c".

Fixpoint getConfigPath (_configPath : string) (args : list string) : string :=
  match args with
  | [] => _configPath
  | arg :: rest =>
    match next_arg rest with
    | Some nextArg =>
      if is_config arg
      then nextArg
      else getConfigPath _configPath rest
    | None => getConfigPath _configPath rest
    end
  end.

(** [arg == "--param" || arg == "--params" || arg == "-p"] *)
Definition is_param (arg : string) : bool :=
  String.eqb arg "--param" || String.eqb arg "--params" || String.eqb arg "-p".

(** [if (line.length > 0) line = line + ';'; line = line + nextArg;] *)
Definition add_param (line nextArg : string) : string :=
  String.append
    (if 0 <? String.length line then String.append line ";" else line)
    nextArg.

(** The first loop of [getParameters], which builds [line]. After a
    parameter is taken the [index++] of the body skips its value. *)
Fixpoint parameters_line (line : string) (args : list string) : string :=
  match args with
  | [] => line
  | arg :: rest =>
    match rest with
    | [] => line
    | _ :: after =>
      match next_arg rest with
      | Some nextArg =>
        if is_param arg
        then parameters_line (add_param line nextArg) after
        else parameters_line line rest
      | None => parameters_line line rest
      end
    end
  end.

Fixpoint showHelp (args : list string) : bool :=
  match args with
  | [] => false
  | arg :: rest =>
    if String.eqb arg "--help" || String.eqb arg "-h" then true else showHelp rest
  end.

(** What [run] leaves in the process: the lines written to the console, the
    messages given to the logger, the process events a handler was
    registered for, and the state of the container underneath. *)
Record Process (C : Type) := new_Process {
  console : list string;
  logged : list (string * string);
  handlers : list string;
  container : C
}.
Arguments new_Process {C} console logged handlers container.
Arguments console {C} p.
Arguments logged {C} p.
Arguments handlers {C} p.
Arguments container {C} p.

Section Run.
(** Modelled from the spec: the container underneath and the configuration
    parameters (Container.ts is not under src/, ConfigParams belongs to
    pip-services-commons-node). [readConfigFromFile] and [open] are any
    computations on the container's state; [fromString] and [append] are
    [ConfigParams.fromString] and [parameters.append(process.env)]. *)
Context {C ConfigParams Env : Type}
  (fromString : string -> ConfigParams)
  (append : ConfigParams -> Env -> ConfigParams)
  (readConfigFromFile : string -> string -> ConfigParams -> M C unit)
  (open : string -> M C unit).

Definition getParameters (env : Env) (args : list string) : ConfigParams :=
  append (fromString (parameters_line "" args)) env.

(** A computation on the container, run inside the process. *)
Definition liftC {A} (c : M C A) : M (Process C) A :=
  fun p =>
    let (r, c') := c (container p) in
    (r, new_Process (console p) (logged p) (handlers p) c').

Definition console_log (line : string) : M (Process C) unit :=
  fun p => (Ret tt, new_Process (console p ++ [line]) (logged p) (handlers p) (container p)).

Definition logger_info (correlationId message : string) : M (Process C) unit :=
  fun p =>
    (Ret tt, new_Process (console p) (logged p ++ [(correlationId, message)])
               (handlers p) (container p)).

(** [process.on(event, ...)] *)
Definition process_on (event : string) : M (Process C) unit :=
  fun p => (Ret tt, new_Process (console p) (logged p) (handlers p ++ [event]) (container p)).

Definition printHelp : M (Process C) unit :=
  console_log "Pip.Services process container - http://www.github.com/pip-services/pip-services" ;;;
  console_log "run [-h] [-c <config file>] [-p <param>=<value>]*".

Definition captureErrors (correlationId : string) : M (Process C) unit :=
  process_on "uncaughtException".

Definition captureExit (correlationId : string) : M (Process C) unit :=
  logger_info correlationId "Press Control-C to stop the microservice..." ;;;
  process_on "SIGINT" ;;;
  process_on "exit".

(** [name] is [this._info.name]. *)
Definition run (name _configPath : string) (env : Env) (args : list string)
  : M (Process C) unit :=
  if showHelp args then printHelp
  else
    let correlationId := name in
    let path := getConfigPath _configPath args in
    let parameters := getParameters env args in
    liftC (readConfigFromFile correlationId path parameters) ;;;
    captureErrors correlationId ;;;
    captureExit correlationId ;;;
    liftC (open correlationId).

End Run.
End ProcessContainer.

(** ** Test components and reference sets *)

Module Scenario.

Definition partial : Descriptor :=
  new_Descriptor (Some "g"%string) None (Some "k"%string) None None.

Definition full : Descriptor :=
  new_Descriptor (Some "g2"%string) (Some "t"%string) (Some "k2"%string)
                 (Some "n"%string) (Some "v"%string).

(** A factory: it answers a descriptor with [full], a string with the
    string itself and anything else with null; it builds component 10. *)
Definition factory : Component.t unit :=
  Component.Build
    (Some (fun loc =>
       match loc with
       | LDescriptor _ => ret (LDescriptor full)
       | LStr _ => ret loc
       | _ => ret LNull
       end))
    (Some (fun _ => ret (Some 10)))
    None None.

(** A factory whose probe throws. *)
Definition broken_probe : Component.t unit :=
  Component.Build
    (Some (fun _ => throw (JsError "probe failed"%string)))
    (Some (fun _ => ret (Some 11)))
    None None.

(** A component that opens and closes without error. *)
Definition service : Component.t unit :=
  Component.Build None None (Some (fun _ => ret tt)) (Some (fun _ => ret tt)).

(** A component whose open and close both fail. *)
Definition faulty : Component.t unit :=
  Component.Build None None
    (Some (fun _ => throw (JsError "open failed"%string)))
    (Some (fun _ => throw (JsError "close failed"%string))).

Definition plain : Component.t unit :=
  Component.Build None None None None.

Definition object (h : handle) : Component.t unit :=
  match h with
  | 1 => factory
  | 2 => broken_probe
  | 3 => service
  | 4 => faulty
  | 10 => service
  | _ => plain
  end.

(** Set 0 holds [base], set 1 holds [parent]. *)
Definition world_of (base parent : list Reference) : World unit :=
  new_World (fun j => match j with
                      | 0 => base
                      | 1 => parent
                      | _ => []
                      end) tt.

Definition system_of (base parent : list Reference) : Sys unit :=
  new_Sys (world_of base parent) [].

(** A parent that refuses every [put]. *)
Definition read_only : IReferences.t unit :=
  IReferences.Build
    (fun _ _ => throw (JsError "read-only"%string))
    (References.remove 1) (References.removeAll 1)
    (References.getAll 1) (References.find 1).

Definition logger : locator := LStr "logger"%string.

Definition entry (name : string) (component : handle) : Reference :=
  new_Reference (LStr name) component.

(** A decorator over set 0 whose parent is set 1. *)
Definition two_sets : ReferencesDecorator.t unit :=
  ReferencesDecorator.Build (References.at_ 0) (References.at_ 1).

(** A decorator over set 0 whose parent is set 0 as well. *)
Definition one_set : ReferencesDecorator.t unit :=
  ReferencesDecorator.Build (References.at_ 0) (References.at_ 0).

(** A decorator over set 0 whose parent refuses to store. *)
Definition guarded : ReferencesDecorator.t unit :=
  ReferencesDecorator.Build (References.at_ 0) read_only.

(** The reference sets used in the runs below. *)
Definition with_factory : list Reference := [entry "f" 1].

Definition with_broken_probe : list Reference :=
  [entry "s" 3; entry "x" 2; entry "f" 1].

Definition three_services : list Reference :=
  [entry "a" 3; entry "b" 4; entry "c" 10].

Definition sound_services : list Reference :=
  [entry "a" 3; entry "c" 10; entry "p" 5].

Definition closed_run (base : list Reference) : RunReferencesDecorator.State unit :=
  RunReferencesDecorator.new_State false (system_of base []).

Definition opened_run (base : list Reference) : RunReferencesDecorator.State unit :=
  RunReferencesDecorator.new_State true (system_of base []).

Definition c1 : option string := Some "c1"%string.

End Scenario.

(** ** More test components, with a counter as the components' state *)

Module Cases.

(** A factory whose probe answers once and throws from then on. *)
Definition flaky : Component.t nat :=
  Component.Build
    (Some (fun _ w =>
       if heap w =? 0
       then (Ret (LDescriptor Scenario.full), new_World (sets w) (S (heap w)))
       else (Throw (JsError "probe failed again"%string), w)))
    (Some (fun _ => ret (Some 10)))
    None None.

(** A factory that accepts every locator and fails to build. *)
Definition failing_create : Component.t nat :=
  Component.Build
    (Some (fun loc => ret (LBool true)))
    (Some (fun _ => throw (JsError "cannot build"%string)))
    None None.

Definition service : Component.t nat :=
  Component.Build None None (Some (fun _ => ret tt)) (Some (fun _ => ret tt)).

Definition faulty : Component.t nat :=
  Component.Build None None
    (Some (fun _ => throw (JsError "open failed"%string)))
    (Some (fun _ => throw (JsError "close failed"%string))).

(** A factory that declines every locator (and would build component 12). *)
Definition declining : Component.t nat :=
  Component.Build
    (Some (fun _ => ret LNull))
    (Some (fun _ => ret (Some 12)))
    None None.

(** A factory that accepts every locator, answers a descriptor with
    [Scenario.full], and builds component 10. *)
Definition builder : Component.t nat :=
  Component.Build
    (Some (fun loc =>
       match loc with
       | LDescriptor _ => ret (LDescriptor Scenario.full)
       | _ => ret (LBool true)
       end))
    (Some (fun _ => ret (Some 10)))
    None None.

Definition object (h : handle) : Component.t nat :=
  match h with
  | 3 => service
  | 4 => faulty
  | 6 => failing_create
  | 7 => flaky
  | 8 => declining
  | 9 => builder
  | 10 => service
  | _ => Component.Build None None None None
  end.

(** A service, a declining factory, the builder, and the flaky factory. *)
Definition mixed : list Reference :=
  [Scenario.entry "s" 3; Scenario.entry "d" 8; Scenario.entry "f" 9; Scenario.entry "x" 7].

(** Set 0 holds [base]; the counter starts at [n]. *)
Definition world_of (base : list Reference) (n : nat) : World nat :=
  new_World (fun j => match j with
                      | 0 => base
                      | _ => []
                      end) n.

Definition system_of (base : list Reference) : Sys nat :=
  new_Sys (world_of base 0) [].

Definition decorator : ReferencesDecorator.t nat :=
  ReferencesDecorator.Build (References.at_ 0) (References.at_ 0).

Definition opened_run (base : list Reference) : RunReferencesDecorator.State nat :=
  RunReferencesDecorator.new_State true (system_of base).

(** A container that records what it is asked to do. *)
Definition fromString (line : string) : list string := [line].

Definition append (parameters env : list string) : list string := parameters ++ env.

Definition readConfigFromFile (correlationId path : string) (parameters : list string)
  : M (list string) unit :=
  fun c => (Ret tt, c ++ ["read"%string; correlationId; path] ++ parameters).

Definition unreadable (correlationId path : string) (parameters : list string)
  : M (list string) unit :=
  fun c => (Throw (JsError "no such file"%string), c).

Definition open (correlationId : string) : M (list string) unit :=
  fun c => (Ret tt, c ++ ["open"%string; correlationId]).

Definition idle : ProcessContainer.Process (list string) :=
  ProcessContainer.new_Process [] [] [] [].

Definition default_path : string := "./config/config.yml".

End Cases.

(** * Properties *)

(** ** Running computations step by step *)

Section Steps.
Context {St A B : Type}.

Lemma bind_ret (c : M St A) (k : A -> M St B) s a s' :
  c s = (Ret a, s') -> bind c k s = k a s'.
Proof. intros H. unfold bind. rewrite H. reflexivity. Qed.

Lemma bind_throw (c : M St A) (k : A -> M St B) s e s' :
  c s = (Throw e, s') -> bind c k s = (Throw e, s').
Proof. intros H. unfold bind. rewrite H. reflexivity. Qed.

Lemma attempt_run (c : M St A) s r s' :
  c s = (r, s') -> attempt c s = (Ret r, s').
Proof. intros H. unfold attempt. rewrite H. reflexivity. Qed.

End Steps.

Lemma liftW_run {Heap A} (c : M (World Heap) A) s r w :
  c (world s) = (r, w) -> liftW c s = (r, new_Sys w (trace s)).
Proof. intros H. unfold liftW. rewrite H. reflexivity. Qed.

Lemma liftS_run {Heap A} (c : M (Sys Heap) A) st r s :
  c (RunReferencesDecorator.sys st) = (r, s) ->
  RunReferencesDecorator.liftS c st
  = (r, RunReferencesDecorator.new_State (RunReferencesDecorator._opened st) s).
Proof. intros H. unfold RunReferencesDecorator.liftS. rewrite H. reflexivity. Qed.

Lemma length_zero_nil {A} (l : list A) : (List.length l =? 0) = false <-> l <> [].
Proof.
  destruct l as [|x l]; simpl; split; intro H.
  - discriminate.
  - now elim H.
  - discriminate.
  - reflexivity.
Qed.

(** ** Locators *)




(** ** BuildReferencesDecorator *)

Section BuildFacts.
Context {Heap : Type} (object : handle -> Component.t Heap).

Lemma super_find_run (this : ReferencesDecorator.t Heap) loc required s r w :
  IReferences.find (ReferencesDecorator.baseReferences this) loc required (world s) = (r, w) ->
  ReferencesDecorator.find this loc required s = (r, new_Sys w (trace s)).
Proof. intros H. unfold ReferencesDecorator.find. now apply liftW_run. Qed.

Lemma find_hit_run (this : ReferencesDecorator.t Heap) loc required s cs w :
  IReferences.find (ReferencesDecorator.baseReferences this) loc false (world s) = (Ret cs, w) ->
  cs <> [] ->
  BuildReferencesDecorator.find object this loc required s = (Ret cs, new_Sys w (trace s)).
Proof.
  intros Hbase Hne. unfold BuildReferencesDecorator.find.
  rewrite (bind_ret _ _ _ _ _ (super_find_run this loc false s _ _ Hbase)).
  apply length_zero_nil in Hne. rewrite Hne, andb_false_r.
  unfold bind, ret. simpl. now rewrite Hne, andb_false_r.
Qed.

(** C10. Whenever the base references' find for the locator returns a
    non-empty result, [find] of the build decorator returns exactly that
    result, whatever [required] is; the system it leaves is the one the base
    find left, with the trace as it was: no factory was probed or asked to
    create, and nothing was put into the parent. In particular, when the
    base find leaves the world alone, so does the decorator. *)
Theorem find_base_hit (this : ReferencesDecorator.t Heap) loc required s cs w :
  IReferences.find (ReferencesDecorator.baseReferences this) loc false (world s) = (Ret cs, w) ->
  cs <> [] ->
  BuildReferencesDecorator.find object this loc required s = (Ret cs, new_Sys w (trace s))
  /\ (w = world s -> snd (BuildReferencesDecorator.find object this loc required s) = s).
Proof.
  intros Hbase Hne.
  pose proof (find_hit_run this loc required s cs w Hbase Hne) as Hrun.
  split; [exact Hrun|].
  intros ->. rewrite Hrun. now destruct s.
Qed.

(** C5. [clarifyLocator] on a descriptor, with a factory whose probe answers
    a descriptor, returns the descriptor in which each of the five fields is
    the original's when that is not null and the factory's otherwise. With
    no factory, or a locator that is not a descriptor, the locator comes
    back as it is and the factory is not probed; with a probe that answers
    null or something that is not a descriptor, the locator comes back as it
    is. *)
Theorem clarifyLocator_merge (this : ReferencesDecorator.t Heap) s :
  (forall d f a s',
      call_canCreate object f (LDescriptor d) s = (Ret (LDescriptor a), s') ->
      exists m,
        BuildReferencesDecorator.clarifyLocator object this (LDescriptor d) (Some f) s
        = (Ret (LDescriptor m), s')
        /\ (forall get,
              In get [getGroup; getType; getKind; getName; getVersion] ->
              (get d <> None -> get m = get d) /\ (get d = None -> get m = get a)))
  /\ (forall loc,
         BuildReferencesDecorator.clarifyLocator object this loc None s = (Ret loc, s))
  /\ (forall loc factory,
         (forall d, loc <> LDescriptor d) ->
         BuildReferencesDecorator.clarifyLocator object this loc factory s = (Ret loc, s))
  /\ (forall d f answer s',
         call_canCreate object f (LDescriptor d) s = (Ret answer, s') ->
         (forall a, answer <> LDescriptor a) ->
         BuildReferencesDecorator.clarifyLocator object this (LDescriptor d) (Some f) s
         = (Ret (LDescriptor d), s')).
Proof.
  split; [|split; [|split]].
  - intros d f a s' Hprobe. eexists. split.
    + unfold BuildReferencesDecorator.clarifyLocator.
      rewrite (bind_ret _ _ _ _ _ Hprobe). reflexivity.
    + intros get Hin. simpl in Hin.
      destruct Hin as [<-|[<-|[<-|[<-|[<-|[]]]]]]; simpl;
        match goal with
        | |- context [BuildReferencesDecorator.or_else ?x _] => destruct x
        end; simpl; split; congruence.
  - intros loc. reflexivity.
  - intros loc [f|] Hnot; [|reflexivity].
    destruct loc as [|b|str|d]; try reflexivity. now elim (Hnot d).
  - intros d f answer s' Hprobe Hnot.
    unfold BuildReferencesDecorator.clarifyLocator.
    rewrite (bind_ret _ _ _ _ _ Hprobe).
    destruct answer as [|b|str|a]; try reflexivity. now elim (Hnot a).
Qed.


(** *** A required lookup that misses the base *)

Lemma find_miss_run (this : ReferencesDecorator.t Heap) loc s w1 :
  IReferences.find (ReferencesDecorator.baseReferences this) loc false (world s) = (Ret [], w1) ->
  BuildReferencesDecorator.find object this loc true s
  = bind (BuildReferencesDecorator.build object this loc [])
      (fun vars =>
         if List.length (snd vars) =? 0
         then throw (ReferenceException None (fst vars))
         else ret (snd vars))
      (new_Sys w1 (trace s)).
Proof.
  intros Hbase. unfold BuildReferencesDecorator.find.
  rewrite (bind_ret _ _ _ _ _ (super_find_run this loc false s _ _ Hbase)).
  reflexivity.
Qed.


Lemma build_probe_error (this : ReferencesDecorator.t Heap) loc comps s e s2 :
  BuildReferencesDecorator.findFactory object this loc s = (Throw e, s2) ->
  BuildReferencesDecorator.build object this loc comps s = (Throw e, s2).
Proof.
  intros Hf. unfold BuildReferencesDecorator.build.
  now rewrite (bind_throw _ _ _ _ _ Hf).
Qed.

Lemma build_stored (this : ReferencesDecorator.t Heap) loc comps s f s2 c s3 loc' s4 r w5 :
  BuildReferencesDecorator.findFactory object this loc s = (Ret (Some f), s2) ->
  BuildReferencesDecorator.create object this loc (Some f) s2 = (Ret (Some c), s3) ->
  BuildReferencesDecorator.clarifyLocator object this loc (Some f) s3 = (Ret loc', s4) ->
  IReferences.put (ReferencesDecorator.parentReferences this) loc' c (world s4) = (r, w5) ->
  BuildReferencesDecorator.build object this loc comps s
  = (Ret (loc', match r with
                | Ret _ => comps ++ [c]
                | Throw _ => comps
                end), new_Sys w5 (trace s4)).
Proof.
  intros Hf Hc Hl Hp. unfold BuildReferencesDecorator.build.
  rewrite (bind_ret _ _ _ _ _ Hf), (bind_ret _ _ _ _ _ Hc).
  rewrite (bind_ret _ _ _ _ _ (attempt_run _ _ _ _ Hl)).
  rewrite (bind_ret _ _ _ _ _ (attempt_run _ _ _ _ (liftW_run _ _ _ _ Hp))).
  now destruct r.
Qed.

Lemma create_run (this : ReferencesDecorator.t Heap) loc f s c s' :
  call_create object f loc s = (Ret c, s') ->
  BuildReferencesDecorator.create object this loc (Some f) s = (Ret c, s').
Proof.
  intros H. unfold BuildReferencesDecorator.create, try_catch. now rewrite H.
Qed.

(** C1 (as amended). On a required lookup that misses the base, finds a
    factory and builds a component, an error raised by the parent's [put]
    is swallowed, but the component is not added to the result: [find]
    fails with a ReferenceException that carries the clarified locator. *)
Theorem find_registration_failure
  (this : ReferencesDecorator.t Heap) loc s w1 f s2 c s3 loc' s4 e w5 :
  IReferences.find (ReferencesDecorator.baseReferences this) loc false (world s) = (Ret [], w1) ->
  BuildReferencesDecorator.findFactory object this loc (new_Sys w1 (trace s)) = (Ret (Some f), s2) ->
  BuildReferencesDecorator.create object this loc (Some f) s2 = (Ret (Some c), s3) ->
  BuildReferencesDecorator.clarifyLocator object this loc (Some f) s3 = (Ret loc', s4) ->
  IReferences.put (ReferencesDecorator.parentReferences this) loc' c (world s4) = (Throw e, w5) ->
  BuildReferencesDecorator.find object this loc true s
  = (Throw (ReferenceException None loc'), new_Sys w5 (trace s4)).
Proof.
  intros Hbase Hf Hc Hl Hp.
  rewrite (find_miss_run this loc s w1 Hbase).
  now rewrite (bind_ret _ _ _ _ _ (build_stored this loc [] _ _ _ _ _ _ _ _ _ Hf Hc Hl Hp)).
Qed.


(** *** The factory scan *)

Lemma scan_app pre rest loc s s' :
  BuildReferencesDecorator.findFactory_scan object pre loc s = (Ret None, s') ->
  BuildReferencesDecorator.findFactory_scan object (pre ++ rest) loc s
  = BuildReferencesDecorator.findFactory_scan object rest loc s'.
Proof.
  revert s. induction pre as [|x pre IH]; intros s H; simpl in *.
  - unfold ret in H. now inversion H.
  - destruct (is_factory object x).
    + unfold bind in *.
      destruct (call_canCreate object x loc s) as [[answer|e] s1]; [|discriminate].
      destruct (truthy answer); [discriminate|]. now apply IH.
    + now apply IH.
Qed.

Lemma scan_probe_error c rest loc s e s' :
  is_factory object c = true ->
  call_canCreate object c loc s = (Throw e, s') ->
  BuildReferencesDecorator.findFactory_scan object (c :: rest) loc s = (Throw e, s').
Proof.
  intros Hcap Hprobe. simpl. rewrite Hcap.
  now rewrite (bind_throw _ _ _ _ _ Hprobe).
Qed.

Lemma scan_none comps loc :
  (forall c, In c comps ->
             is_factory object c = false
             \/ forall s, exists answer s',
                  call_canCreate object c loc s = (Ret answer, s') /\ truthy answer = false) ->
  forall s, exists s',
    BuildReferencesDecorator.findFactory_scan object comps loc s = (Ret None, s').
Proof.
  induction comps as [|c comps IH]; intros Hall s; simpl.
  - unfold ret. eauto.
  - assert (Hrest : forall c', In c' comps ->
                      is_factory object c' = false
                      \/ forall s, exists answer s',
                           call_canCreate object c' loc s = (Ret answer, s')
                           /\ truthy answer = false)
      by (intros c' Hin; apply Hall; now right).
    destruct (Hall c (or_introl eq_refl)) as [Hno|Hprobe].
    + rewrite Hno. now apply IH.
    + destruct (is_factory object c); [|now apply IH].
      destruct (Hprobe s) as [answer [s1 [Hrun Hfalsy]]].
      rewrite (bind_ret _ _ _ _ _ Hrun), Hfalsy. now apply IH.
Qed.

Lemma scan_found c rest loc s answer s' :
  is_factory object c = true ->
  call_canCreate object c loc s = (Ret answer, s') ->
  truthy answer = true ->
  BuildReferencesDecorator.findFactory_scan object (c :: rest) loc s = (Ret (Some c), s').
Proof.
  intros Hcap Hprobe Htruthy. simpl.
  now rewrite Hcap, (bind_ret _ _ _ _ _ Hprobe), Htruthy.
Qed.

(** C2 (as amended). [findFactory] does not guard the [canCreate] probe:
    when the scan reaches a factory whose probe raises an error, the error
    leaves [findFactory], and it leaves [find] when [find] is a required
    lookup that missed the base; the components after that factory are not
    probed (the system is left as the failing probe left it). *)
Theorem findFactory_probe_error
  (this : ReferencesDecorator.t Heap) loc s w1 pre c post w2 s3 e s4 :
  IReferences.find (ReferencesDecorator.baseReferences this) loc false (world s) = (Ret [], w1) ->
  IReferences.getAll (ReferencesDecorator.baseReferences this) w1 = (Ret (pre ++ c :: post), w2) ->
  BuildReferencesDecorator.findFactory_scan object pre loc (new_Sys w2 (trace s)) = (Ret None, s3) ->
  is_factory object c = true ->
  call_canCreate object c loc s3 = (Throw e, s4) ->
  BuildReferencesDecorator.findFactory object this loc (new_Sys w1 (trace s)) = (Throw e, s4)
  /\ BuildReferencesDecorator.find object this loc true s = (Throw e, s4).
Proof.
  intros Hbase Hall Hpre Hcap Hprobe.
  assert (Hf : BuildReferencesDecorator.findFactory object this loc (new_Sys w1 (trace s))
               = (Throw e, s4)).
  { unfold BuildReferencesDecorator.findFactory, ReferencesDecorator.getAll.
    rewrite (bind_ret _ _ _ _ _ (liftW_run _ (new_Sys w1 (trace s)) _ _ Hall)).
    simpl. rewrite (scan_app _ _ _ _ _ Hpre).
    now apply scan_probe_error. }
  split; [exact Hf|].
  rewrite (find_miss_run this loc s w1 Hbase).
  now rewrite (bind_throw _ _ _ _ _ (build_probe_error this loc [] _ _ _ Hf)).
Qed.

(** *** Clarified locators still match *)




Lemma scan_first pre f post loc s :
  (forall c, In c pre -> declines object c loc) ->
  accepts object f loc ->
  exists s2 answer s3,
    BuildReferencesDecorator.findFactory_scan object pre loc s = (Ret None, s2)
    /\ call_canCreate object f loc s2 = (Ret answer, s3)
    /\ truthy answer = true
    /\ BuildReferencesDecorator.findFactory_scan object (pre ++ f :: post) loc s
       = (Ret (Some f), s3).
Proof.
  intros Hpre [Hcap Hprobe].
  destruct (scan_none pre loc Hpre s) as [s2 Hscan].
  destruct (Hprobe s2) as [answer [s3 [Hrun Htruthy]]].
  exists s2, answer, s3. repeat split; try assumption.
  rewrite (scan_app _ _ _ _ _ Hscan).
  now apply scan_found with (answer := answer).
Qed.


Lemma findFactory_run (this : ReferencesDecorator.t Heap) loc s comps w :
  IReferences.getAll (ReferencesDecorator.baseReferences this) (world s) = (Ret comps, w) ->
  BuildReferencesDecorator.findFactory object this loc s
  = BuildReferencesDecorator.findFactory_scan object comps loc (new_Sys w (trace s)).
Proof.
  intros Hall. unfold BuildReferencesDecorator.findFactory, ReferencesDecorator.getAll.
  now rewrite (bind_ret _ _ _ _ _ (liftW_run _ _ _ _ Hall)).
Qed.


End BuildFacts.

(** ** Opener and Closer *)

Section LifecycleFacts.
Context {Heap : Type} (object : handle -> Component.t Heap).

Lemma openOne_returns cid c s :
  exists err s', Opener.openOne object cid c s = (Ret err, s').
Proof.
  unfold Opener.openOne. destruct (Component.open (object c)) as [f|].
  - unfold bind, attempt, invoke, ret.
    destruct (f cid (world s)) as [[u|e] w]; simpl; eauto.
  - unfold ret. eauto.
Qed.

Lemma closeOne_returns cid c s :
  exists err s', Closer.closeOne object cid c s = (Ret err, s').
Proof.
  unfold Closer.closeOne. destruct (Component.close (object c)) as [f|].
  - unfold bind, attempt, invoke, ret.
    destruct (f cid (world s)) as [[u|e] w]; simpl; eauto.
  - unfold ret. eauto.
Qed.

Lemma open_returns cid comps s :
  exists err s', Opener.open object cid comps s = (Ret err, s').
Proof.
  revert s. induction comps as [|c comps IH]; intros s; simpl.
  - unfold ret. eauto.
  - destruct (openOne_returns cid c s) as [err [s1 H1]].
    rewrite (bind_ret _ _ _ _ _ H1). destruct err as [e|]; [unfold ret; eauto | apply IH].
Qed.

Lemma close_returns cid comps s :
  exists err s', Closer.close object cid comps s = (Ret err, s').
Proof.
  revert s. induction comps as [|c comps IH]; intros s; simpl.
  - unfold ret. eauto.
  - destruct (closeOne_returns cid c s) as [err [s1 H1]].
    rewrite (bind_ret _ _ _ _ _ H1). destruct err as [e|]; [unfold ret; eauto | apply IH].
Qed.

Lemma openOne_failure cid c s f e w :
  Component.open (object c) = Some f ->
  f cid (world s) = (Throw e, w) ->
  Opener.openOne object cid c s = (Ret (Some e), new_Sys w (trace s ++ [EvOpen c cid])).
Proof.
  intros Hf He. unfold Opener.openOne. rewrite Hf.
  unfold bind, attempt, invoke. now rewrite He.
Qed.

Lemma openOne_success_trace cid c s s' :
  Opener.openOne object cid c s = (Ret None, s') ->
  trace s' = trace s ++ (if has_open object c then [EvOpen c cid] else []).
Proof.
  unfold Opener.openOne, has_open. destruct (Component.open (object c)) as [f|]; simpl.
  - unfold bind, attempt, invoke. destruct (f cid (world s)) as [[u|e] w]; unfold ret;
      intros H; inversion H; reflexivity.
  - unfold ret. intros H. inversion H. now rewrite app_nil_r.
Qed.

Lemma open_success_trace cid comps s s' :
  Opener.open object cid comps s = (Ret None, s') ->
  trace s' = trace s ++ map (fun h => EvOpen h cid) (filter (has_open object) comps).
Proof.
  revert s. induction comps as [|c comps IH]; intros s; simpl.
  - unfold ret. intros H. inversion H. now rewrite app_nil_r.
  - destruct (openOne_returns cid c s) as [err [s1 H1]].
    rewrite (bind_ret _ _ _ _ _ H1). destruct err as [e|]; [discriminate|].
    intros H. rewrite (IH _ H), (openOne_success_trace _ _ _ _ H1).
    destruct (has_open object c); simpl; now rewrite <- app_assoc.
Qed.

Lemma open_app cid pre rest s s1 :
  Opener.open object cid pre s = (Ret None, s1) ->
  Opener.open object cid (pre ++ rest) s = Opener.open object cid rest s1.
Proof.
  revert s. induction pre as [|c pre IH]; intros s; simpl.
  - unfold ret. intros H. now inversion H.
  - destruct (openOne_returns cid c s) as [err [s2 H2]].
    rewrite !(bind_ret _ _ _ _ _ H2). destruct err as [e|]; [discriminate|]. apply IH.
Qed.

End LifecycleFacts.

(** ** RunReferencesDecorator *)

Section RunFacts.
Context {Heap : Type} (object : handle -> Component.t Heap).

Lemma getAll_run (this : ReferencesDecorator.t Heap) (st : RunReferencesDecorator.State Heap) r w :
  IReferences.getAll (ReferencesDecorator.baseReferences this) (world (RunReferencesDecorator.sys st)) = (r, w) ->
  RunReferencesDecorator.liftS (ReferencesDecorator.getAll this) st
  = (r, RunReferencesDecorator.new_State (RunReferencesDecorator._opened st) (new_Sys w (trace (RunReferencesDecorator.sys st)))).
Proof.
  intros H. apply liftS_run. unfold ReferencesDecorator.getAll. now apply liftW_run.
Qed.

(** C4. [open] on a closed decorator, when the components before [c] open
    and the open of [c] fails with [e]: the error [e] is what [open] hands
    to its caller, the flag stays false, and the system is left exactly as
    the failing open left it. The trace shows the opens of the components
    before [c] that can be opened, then the open of [c], and nothing else:
    no later component was tried and no earlier one was closed again. *)
Theorem open_failure_aborts
  (this : ReferencesDecorator.t Heap) cid (st : RunReferencesDecorator.State Heap) pre c post w1 s1 f e w2 :
  RunReferencesDecorator._opened st = false ->
  IReferences.getAll (ReferencesDecorator.baseReferences this) (world (RunReferencesDecorator.sys st))
  = (Ret (pre ++ c :: post), w1) ->
  Opener.open object cid pre (new_Sys w1 (trace (RunReferencesDecorator.sys st))) = (Ret None, s1) ->
  Component.open (object c) = Some f ->
  f cid (world s1) = (Throw e, w2) ->
  RunReferencesDecorator.open object this cid st
  = (Ret (Some e),
     RunReferencesDecorator.new_State false
       (new_Sys w2 (trace (RunReferencesDecorator.sys st)
                    ++ map (fun h => EvOpen h cid) (filter (has_open object) pre)
                    ++ [EvOpen c cid]))).
Proof.
  intros Hclosed Hall Hpre Hf He.
  unfold RunReferencesDecorator.open.
  unfold bind at 1. unfold RunReferencesDecorator.isOpen at 1. rewrite Hclosed. cbn [negb].
  rewrite (bind_ret _ _ _ _ _ (getAll_run this st _ _ Hall)).
  assert (Hbulk : Opener.open object cid (pre ++ c :: post) (new_Sys w1 (trace (RunReferencesDecorator.sys st)))
                  = (Ret (Some e), new_Sys w2 (trace s1 ++ [EvOpen c cid]))).
  { rewrite (open_app object _ _ _ _ _ Hpre). simpl.
    now rewrite (bind_ret _ _ _ _ _ (openOne_failure object cid c s1 f e w2 Hf He)). }
  rewrite (bind_ret _ _ _ _ _
             (liftS_run _ (RunReferencesDecorator.new_State (RunReferencesDecorator._opened st)
                             (new_Sys w1 (trace (RunReferencesDecorator.sys st)))) _ _ Hbulk)).
  rewrite (open_success_trace object _ _ _ _ Hpre). simpl.
  rewrite Hclosed, <- app_assoc. reflexivity.
Qed.


Lemma liftS_at {A} (c : M (Sys Heap) A) b s r s' :
  c s = (r, s') ->
  RunReferencesDecorator.liftS c (RunReferencesDecorator.new_State b s)
  = (r, RunReferencesDecorator.new_State b s').
Proof. intros H. unfold RunReferencesDecorator.liftS. simpl. now rewrite H. Qed.

(** C6. [close] on an opened decorator whose components can be listed runs
    the bulk close and then sets the flag to false whether or not the bulk
    close reported an error; what the bulk close reported is what [close]
    hands to its caller. On a closed decorator [close] does nothing and
    reports no error. *)
Theorem close_always_closes
  (this : ReferencesDecorator.t Heap) cid (st : RunReferencesDecorator.State Heap) :
  (RunReferencesDecorator._opened st = true ->
   forall comps w1,
     IReferences.getAll (ReferencesDecorator.baseReferences this)
       (world (RunReferencesDecorator.sys st)) = (Ret comps, w1) ->
     exists err s',
       Closer.close object cid comps (new_Sys w1 (trace (RunReferencesDecorator.sys st)))
       = (Ret err, s')
       /\ RunReferencesDecorator.close object this cid st
          = (Ret err, RunReferencesDecorator.new_State false s'))
  /\ (RunReferencesDecorator._opened st = false ->
      RunReferencesDecorator.close object this cid st = (Ret None, st)).
Proof.
  split.
  - intros Hopened comps w1 Hall.
    destruct (close_returns object cid comps
                (new_Sys w1 (trace (RunReferencesDecorator.sys st)))) as [err [s' Hbulk]].
    exists err, s'. split; [exact Hbulk|].
    unfold RunReferencesDecorator.close.
    unfold bind at 1. unfold RunReferencesDecorator.isOpen at 1. rewrite Hopened.
    rewrite (bind_ret _ _ _ _ _ (getAll_run this st _ _ Hall)).
    rewrite (bind_ret _ _ _ _ _ (liftS_at _ _ _ _ _ Hbulk)).
    reflexivity.
  - intros Hclosed. unfold RunReferencesDecorator.close.
    unfold bind at 1. unfold RunReferencesDecorator.isOpen at 1. now rewrite Hclosed.
Qed.

(** C7. [put] hands the pair to the base set. When that succeeds and the
    decorator is closed, nothing else happens: no component is called. When
    it succeeds and the decorator is opened, the added component is opened
    at once, with no correlation id, if it can be opened: its open is the
    one call recorded, the world is as that open left it, and [put] returns
    normally whether the open succeeded or failed. *)
Theorem put_opens_when_opened
  (this : ReferencesDecorator.t Heap) loc component
  (st : RunReferencesDecorator.State Heap) w1 :
  IReferences.put (ReferencesDecorator.baseReferences this) loc component
    (world (RunReferencesDecorator.sys st)) = (Ret tt, w1) ->
  (RunReferencesDecorator._opened st = false ->
   RunReferencesDecorator.put object this loc component st
   = (Ret tt, RunReferencesDecorator.new_State false
                (new_Sys w1 (trace (RunReferencesDecorator.sys st)))))
  /\ (RunReferencesDecorator._opened st = true ->
      (forall f,
          Component.open (object component) = Some f ->
          RunReferencesDecorator.put object this loc component st
          = (Ret tt, RunReferencesDecorator.new_State true
                       (new_Sys (snd (f None w1))
                          (trace (RunReferencesDecorator.sys st) ++ [EvOpen component None]))))
      /\ (Component.open (object component) = None ->
          RunReferencesDecorator.put object this loc component st
          = (Ret tt, RunReferencesDecorator.new_State true
                       (new_Sys w1 (trace (RunReferencesDecorator.sys st)))))).
Proof.
  intros Hput.
  assert (Hbase : RunReferencesDecorator.liftS (ReferencesDecorator.put this loc component) st
                  = (Ret tt, RunReferencesDecorator.new_State (RunReferencesDecorator._opened st)
                               (new_Sys w1 (trace (RunReferencesDecorator.sys st))))).
  { apply liftS_run. unfold ReferencesDecorator.put. now apply liftW_run. }
  unfold RunReferencesDecorator.put.
  rewrite (bind_ret _ _ _ _ _ Hbase).
  unfold bind at 1 3 5. unfold RunReferencesDecorator.isOpen. simpl.
  split.
  - intros Hclosed. now rewrite Hclosed.
  - intros Hopened. rewrite Hopened. split.
    + intros f Hf.
      unfold bind, RunReferencesDecorator.liftS, Opener.openOne. simpl. rewrite Hf.
      unfold bind, attempt, invoke. simpl.
      destruct (f None w1) as [[u|e] w]; reflexivity.
    + intros Hnone.
      unfold bind, RunReferencesDecorator.liftS, Opener.openOne. simpl. now rewrite Hnone.
Qed.


Lemma open_success_flag
  (this : ReferencesDecorator.t Heap) cid (st st1 : RunReferencesDecorator.State Heap) :
  RunReferencesDecorator.open object this cid st = (Ret None, st1) ->
  RunReferencesDecorator._opened st1 = true.
Proof.
  unfold RunReferencesDecorator.open.
  unfold bind at 1. unfold RunReferencesDecorator.isOpen at 1.
  destruct (RunReferencesDecorator._opened st) eqn:Hflag; cbn [negb].
  - unfold ret. intros H. inversion H. now subst.
  - unfold bind at 1.
    destruct (RunReferencesDecorator.liftS (ReferencesDecorator.getAll this) st)
      as [[comps|e] st2]; [|discriminate].
    unfold bind at 1. unfold RunReferencesDecorator.liftS at 1.
    destruct (open_returns object cid comps (RunReferencesDecorator.sys st2))
      as [err [s' Hbulk]].
    rewrite Hbulk. destruct err as [e|]; unfold bind, ret, RunReferencesDecorator.set_opened.
    + discriminate.
    + intros H. inversion H. reflexivity.
Qed.

Lemma open_success_trace_run
  (this : ReferencesDecorator.t Heap) cid (st st1 : RunReferencesDecorator.State Heap) comps w1 :
  RunReferencesDecorator._opened st = false ->
  IReferences.getAll (ReferencesDecorator.baseReferences this)
    (world (RunReferencesDecorator.sys st)) = (Ret comps, w1) ->
  RunReferencesDecorator.open object this cid st = (Ret None, st1) ->
  trace (RunReferencesDecorator.sys st1)
  = trace (RunReferencesDecorator.sys st)
    ++ map (fun h => EvOpen h cid) (filter (has_open object) comps).
Proof.
  intros Hclosed Hall. unfold RunReferencesDecorator.open.
  unfold bind at 1. unfold RunReferencesDecorator.isOpen at 1. rewrite Hclosed. cbn [negb].
  rewrite (bind_ret _ _ _ _ _ (getAll_run this st _ _ Hall)).
  destruct (open_returns object cid comps
              (new_Sys w1 (trace (RunReferencesDecorator.sys st)))) as [err [s' Hbulk]].
  rewrite (bind_ret _ _ _ _ _ (liftS_at _ _ _ _ _ Hbulk)).
  destruct err as [e|]; unfold bind, ret, RunReferencesDecorator.set_opened; simpl.
  - discriminate.
  - intros H. inversion H. simpl.
    now rewrite (open_success_trace object _ _ _ _ Hbulk).
Qed.

(** C8. When a call of [open] has succeeded, a second call of [open] with
    no [close] in between reports no error and leaves the whole state as it
    is: the trace does not grow, so no component's open is called again.
    Over the two calls, starting closed, the components that can be opened
    were each opened once, in order. *)
Theorem open_twice
  (this : ReferencesDecorator.t Heap) cid cid' (st st1 : RunReferencesDecorator.State Heap) :
  RunReferencesDecorator.open object this cid st = (Ret None, st1) ->
  RunReferencesDecorator.open object this cid' st1 = (Ret None, st1)
  /\ (forall comps w1,
         RunReferencesDecorator._opened st = false ->
         IReferences.getAll (ReferencesDecorator.baseReferences this)
           (world (RunReferencesDecorator.sys st)) = (Ret comps, w1) ->
         trace (RunReferencesDecorator.sys
                  (snd (RunReferencesDecorator.open object this cid' st1)))
         = trace (RunReferencesDecorator.sys st)
           ++ map (fun h => EvOpen h cid) (filter (has_open object) comps)).
Proof.
  intros Hfirst. pose proof (open_success_flag this cid st st1 Hfirst) as Hflag.
  assert (Hsecond : RunReferencesDecorator.open object this cid' st1 = (Ret None, st1)).
  { unfold RunReferencesDecorator.open.
    unfold bind at 1. unfold RunReferencesDecorator.isOpen at 1. now rewrite Hflag. }
  split; [exact Hsecond|].
  intros comps w1 Hclosed Hall. rewrite Hsecond. simpl.
  exact (open_success_trace_run this cid st st1 comps w1 Hclosed Hall Hfirst).
Qed.

(** *** The flag *)

Lemma liftS_flag {A} (c : M (Sys Heap) A) (st : RunReferencesDecorator.State Heap) :
  RunReferencesDecorator._opened (snd (RunReferencesDecorator.liftS c st))
  = RunReferencesDecorator._opened st.
Proof.
  unfold RunReferencesDecorator.liftS. now destruct (c (RunReferencesDecorator.sys st)).
Qed.

Lemma bind_flag {A B} (c : M (RunReferencesDecorator.State Heap) A)
  (k : A -> M (RunReferencesDecorator.State Heap) B) :
  (forall st, RunReferencesDecorator._opened (snd (c st)) = RunReferencesDecorator._opened st) ->
  (forall a st, RunReferencesDecorator._opened (snd (k a st)) = RunReferencesDecorator._opened st) ->
  forall st,
    RunReferencesDecorator._opened (snd (bind c k st)) = RunReferencesDecorator._opened st.
Proof.
  intros Hc Hk st. unfold bind. specialize (Hc st).
  destruct (c st) as [[a|e] st1]; simpl in *; [|exact Hc].
  now rewrite Hk.
Qed.

Lemma open_cases
  (this : ReferencesDecorator.t Heap) cid (st : RunReferencesDecorator.State Heap) r st' :
  RunReferencesDecorator.open object this cid st = (r, st') ->
  (RunReferencesDecorator._opened st = true /\ r = Ret None /\ st' = st)
  \/ (RunReferencesDecorator._opened st = false
      /\ r <> Ret None /\ RunReferencesDecorator._opened st' = false)
  \/ (RunReferencesDecorator._opened st = false
      /\ r = Ret None /\ RunReferencesDecorator._opened st' = true).
Proof.
  unfold RunReferencesDecorator.open.
  unfold bind at 1. unfold RunReferencesDecorator.isOpen at 1.
  destruct (RunReferencesDecorator._opened st) eqn:Hflag; cbn [negb].
  - unfold ret. intros H. inversion H. left. now repeat split.
  - intros Hrun. right. revert Hrun. unfold bind at 1.
    pose proof (liftS_flag (ReferencesDecorator.getAll this) st) as Hkeep.
    destruct (RunReferencesDecorator.liftS (ReferencesDecorator.getAll this) st)
      as [[comps|e] st2]; simpl in Hkeep; rewrite Hflag in Hkeep.
    + unfold bind at 1. unfold RunReferencesDecorator.liftS at 1.
      destruct (open_returns object cid comps (RunReferencesDecorator.sys st2))
        as [err [s' Hbulk]].
      rewrite Hbulk.
      destruct err as [e|]; unfold bind, ret, RunReferencesDecorator.set_opened; simpl;
        intros H; inversion H; subst.
      * left. repeat split; [discriminate|exact Hkeep].
      * right. now repeat split.
    + intros H. inversion H. subst. left. repeat split; [discriminate|exact Hkeep].
Qed.

Lemma close_cases
  (this : ReferencesDecorator.t Heap) cid (st : RunReferencesDecorator.State Heap) r st' :
  RunReferencesDecorator.close object this cid st = (r, st') ->
  (RunReferencesDecorator._opened st = false /\ r = Ret None /\ st' = st)
  \/ (RunReferencesDecorator._opened st = true
      /\ (exists e, r = Throw e) /\ RunReferencesDecorator._opened st' = true)
  \/ (RunReferencesDecorator._opened st = true
      /\ (exists err, r = Ret err) /\ RunReferencesDecorator._opened st' = false).
Proof.
  unfold RunReferencesDecorator.close.
  unfold bind at 1. unfold RunReferencesDecorator.isOpen at 1.
  destruct (RunReferencesDecorator._opened st) eqn:Hflag.
  - intros Hrun. right. revert Hrun. unfold bind at 1.
    pose proof (liftS_flag (ReferencesDecorator.getAll this) st) as Hkeep.
    destruct (RunReferencesDecorator.liftS (ReferencesDecorator.getAll this) st)
      as [[comps|e] st2]; simpl in Hkeep; rewrite Hflag in Hkeep.
    + unfold bind at 1. unfold RunReferencesDecorator.liftS at 1.
      destruct (close_returns object cid comps (RunReferencesDecorator.sys st2))
        as [err [s' Hbulk]].
      rewrite Hbulk. unfold bind, ret, RunReferencesDecorator.set_opened. simpl.
      intros H. inversion H. subst. right. repeat split. now exists err.
    + intros H. inversion H. subst. left. repeat split; [now exists e|exact Hkeep].
  - unfold ret. intros H. inversion H. left. now repeat split.
Qed.

Ltac flag_step :=
  first [ apply bind_flag; intros
        | apply liftS_flag
        | reflexivity ].

(** C9. [put], [remove] and [removeAll] leave the flag as it was, in every
    state and for every argument, also when they open or close components
    and when they throw. [open] leaves the flag true exactly when it was
    true before or the call reported success; after a [close] that reports
    to its caller the flag is false, and a [close] that throws leaves it as
    it was. *)
Theorem opened_flag_frame
  (this : ReferencesDecorator.t Heap) (st : RunReferencesDecorator.State Heap) :
  (forall loc component,
      RunReferencesDecorator._opened
        (snd (RunReferencesDecorator.put object this loc component st))
      = RunReferencesDecorator._opened st)
  /\ (forall loc,
         RunReferencesDecorator._opened
           (snd (RunReferencesDecorator.remove object this loc st))
         = RunReferencesDecorator._opened st)
  /\ (forall loc,
         RunReferencesDecorator._opened
           (snd (RunReferencesDecorator.removeAll object this loc st))
         = RunReferencesDecorator._opened st)
  /\ (forall cid,
         RunReferencesDecorator._opened
           (snd (RunReferencesDecorator.open object this cid st)) = true
         <-> (RunReferencesDecorator._opened st = true
              \/ fst (RunReferencesDecorator.open object this cid st) = Ret None))
  /\ (forall cid err,
         fst (RunReferencesDecorator.close object this cid st) = Ret err ->
         RunReferencesDecorator._opened
           (snd (RunReferencesDecorator.close object this cid st)) = false)
  /\ (forall cid e,
         fst (RunReferencesDecorator.close object this cid st) = Throw e ->
         RunReferencesDecorator._opened
           (snd (RunReferencesDecorator.close object this cid st))
         = RunReferencesDecorator._opened st).
Proof.
  split; [|split; [|split; [|split; [|split]]]].
  - intros loc component. revert st. unfold RunReferencesDecorator.put.
    repeat flag_step.
    match goal with |- context [if ?b then _ else _] => destruct b end;
      repeat flag_step.
  - intros loc. revert st. unfold RunReferencesDecorator.remove.
    repeat flag_step.
    match goal with |- context [if ?b then _ else _] => destruct b end;
      [match goal with |- context [match ?c with Some _ => _ | None => _ end] =>
         destruct c end|]; repeat flag_step.
  - intros loc. revert st. unfold RunReferencesDecorator.removeAll.
    repeat flag_step.
    match goal with |- context [if ?b then _ else _] => destruct b end;
      repeat flag_step.
  - intros cid.
    destruct (RunReferencesDecorator.open object this cid st) as [r st'] eqn:Hrun.
    destruct (open_cases this cid st r st' Hrun)
      as [[Hflag [Hr Hst]]|[[Hflag [Hr Hflag']]|[Hflag [Hr Hflag']]]]; simpl.
    + subst. split; auto.
    + rewrite Hflag, Hflag'. split; [discriminate|]. intros [H|H]; [discriminate|now elim Hr].
    + rewrite Hflag'. split; auto.
  - intros cid err.
    destruct (RunReferencesDecorator.close object this cid st) as [r st'] eqn:Hrun.
    destruct (close_cases this cid st r st' Hrun)
      as [[Hflag [Hr Hst]]|[[Hflag [[e Hr] Hflag']]|[Hflag [Hr Hflag']]]]; simpl; subst.
    + intros _. exact Hflag.
    + discriminate.
    + intros _. exact Hflag'.
  - intros cid e.
    destruct (RunReferencesDecorator.close object this cid st) as [r st'] eqn:Hrun.
    destruct (close_cases this cid st r st' Hrun)
      as [[Hflag [Hr Hst]]|[[Hflag [Hr Hflag']]|[Hflag [[err Hr] Hflag']]]]; simpl; subst.
    + discriminate.
    + intros _. now rewrite Hflag, Hflag'.
    + discriminate.
Qed.

End RunFacts.

(** ** Concrete runs *)

(** The same on a concrete registry: component 3 is stored under "logger". *)
Lemma find_base_hit_witness :
  BuildReferencesDecorator.find Scenario.object Scenario.two_sets Scenario.logger true
    (Scenario.system_of [Scenario.entry "logger" 3; Scenario.entry "f" 1] [])
  = (Ret [3], new_Sys (Scenario.world_of [Scenario.entry "logger" 3; Scenario.entry "f" 1] []) [])
  /\ (Scenario.world_of [Scenario.entry "logger" 3; Scenario.entry "f" 1] []
      = world (Scenario.system_of [Scenario.entry "logger" 3; Scenario.entry "f" 1] []) ->
      snd (BuildReferencesDecorator.find Scenario.object Scenario.two_sets Scenario.logger true
             (Scenario.system_of [Scenario.entry "logger" 3; Scenario.entry "f" 1] []))
      = Scenario.system_of [Scenario.entry "logger" 3; Scenario.entry "f" 1] []).
Proof.
  apply (find_base_hit Scenario.object Scenario.two_sets Scenario.logger true
           (Scenario.system_of [Scenario.entry "logger" 3; Scenario.entry "f" 1] [])
           [3]).
  - reflexivity.
  - discriminate.
Defined.

(** The example of the specification: the original's non-null fields win. *)
Example clarifyLocator_example :
  fst (BuildReferencesDecorator.clarifyLocator Scenario.object Scenario.two_sets
         (LDescriptor Scenario.partial) (Some 1) (Scenario.system_of [] []))
  = Ret (LDescriptor (new_Descriptor (Some "g"%string) (Some "t"%string) (Some "k"%string)
                                     (Some "n"%string) (Some "v"%string))).
Proof. reflexivity. Qed.

Lemma clarifyLocator_merge_witness :
  exists m,
    BuildReferencesDecorator.clarifyLocator Scenario.object Scenario.two_sets
      (LDescriptor Scenario.partial) (Some 1) (Scenario.system_of [] [])
    = (Ret (LDescriptor m),
       new_Sys (Scenario.world_of [] []) [EvCanCreate 1 (LDescriptor Scenario.partial)])
    /\ (forall get,
          In get [getGroup; getType; getKind; getName; getVersion] ->
          (get Scenario.partial <> None -> get m = get Scenario.partial)
          /\ (get Scenario.partial = None -> get m = get Scenario.full)).
Proof.
  apply (proj1 (clarifyLocator_merge Scenario.object Scenario.two_sets
                  (Scenario.system_of [] []))
           Scenario.partial 1 Scenario.full).
  reflexivity.
Defined.

(** C1, the claim as written fails: the base has no "logger", factory 1 can
    create it and builds component 10, the parent refuses the [put], and
    [find] does not return the component but throws. *)
Lemma find_registration_failure_counterexample :
  fst (IReferences.find (ReferencesDecorator.baseReferences Scenario.guarded)
         Scenario.logger false (Scenario.world_of Scenario.with_factory [])) = Ret []
  /\ fst (BuildReferencesDecorator.findFactory Scenario.object Scenario.guarded
            Scenario.logger (Scenario.system_of Scenario.with_factory [])) = Ret (Some 1)
  /\ fst (call_create Scenario.object 1 Scenario.logger
            (Scenario.system_of Scenario.with_factory [])) = Ret (Some 10)
  /\ fst (IReferences.put (ReferencesDecorator.parentReferences Scenario.guarded)
            Scenario.logger 10 (Scenario.world_of Scenario.with_factory []))
     = Throw (JsError "read-only")
  /\ fst (BuildReferencesDecorator.find Scenario.object Scenario.guarded
            Scenario.logger true (Scenario.system_of Scenario.with_factory []))
     = Throw (ReferenceException None Scenario.logger)
  /\ fst (BuildReferencesDecorator.find Scenario.object Scenario.guarded
            Scenario.logger true (Scenario.system_of Scenario.with_factory []))
     <> Ret [10].
Proof. repeat split; try reflexivity. discriminate. Qed.

(** The same with a descriptor: the exception carries the clarified locator. *)
Lemma find_registration_failure_witness :
  BuildReferencesDecorator.find Scenario.object Scenario.guarded
    (LDescriptor Scenario.partial) true (Scenario.system_of Scenario.with_factory [])
  = (Throw (ReferenceException None
              (LDescriptor (new_Descriptor (Some "g"%string) (Some "t"%string)
                              (Some "k"%string) (Some "n"%string) (Some "v"%string)))),
     new_Sys (Scenario.world_of Scenario.with_factory [])
       [EvCanCreate 1 (LDescriptor Scenario.partial);
        EvCreate 1 (LDescriptor Scenario.partial);
        EvCanCreate 1 (LDescriptor Scenario.partial)]).
Proof.
  apply (find_registration_failure Scenario.object Scenario.guarded
           (LDescriptor Scenario.partial) (Scenario.system_of Scenario.with_factory [])
           (Scenario.world_of Scenario.with_factory [])
           1 (new_Sys (Scenario.world_of Scenario.with_factory [])
                [EvCanCreate 1 (LDescriptor Scenario.partial)])
           10 (new_Sys (Scenario.world_of Scenario.with_factory [])
                 [EvCanCreate 1 (LDescriptor Scenario.partial);
                  EvCreate 1 (LDescriptor Scenario.partial)])
           _ (new_Sys (Scenario.world_of Scenario.with_factory [])
                [EvCanCreate 1 (LDescriptor Scenario.partial);
                 EvCreate 1 (LDescriptor Scenario.partial);
                 EvCanCreate 1 (LDescriptor Scenario.partial)])
           (JsError "read-only")); reflexivity.
Defined.

(** C2, the claim as written fails: component 2 is a factory whose probe
    throws and factory 1 after it could create "logger", yet [findFactory]
    and [find] end with the probe's error instead of skipping component 2. *)
Lemma findFactory_probe_error_counterexample :
  is_factory Scenario.object 2 = true
  /\ fst (call_canCreate Scenario.object 2 Scenario.logger
            (Scenario.system_of Scenario.with_broken_probe []))
     = Throw (JsError "probe failed")
  /\ fst (call_canCreate Scenario.object 1 Scenario.logger
            (Scenario.system_of Scenario.with_broken_probe []))
     = Ret Scenario.logger
  /\ fst (BuildReferencesDecorator.findFactory Scenario.object Scenario.two_sets
            Scenario.logger (Scenario.system_of Scenario.with_broken_probe []))
     = Throw (JsError "probe failed")
  /\ fst (BuildReferencesDecorator.find Scenario.object Scenario.two_sets
            Scenario.logger true (Scenario.system_of Scenario.with_broken_probe []))
     = Throw (JsError "probe failed").
Proof. repeat split; reflexivity. Qed.

Lemma findFactory_probe_error_witness :
  BuildReferencesDecorator.findFactory Scenario.object Scenario.two_sets Scenario.logger
    (Scenario.system_of Scenario.with_broken_probe [])
  = (Throw (JsError "probe failed"),
     new_Sys (Scenario.world_of Scenario.with_broken_probe []) [EvCanCreate 2 Scenario.logger])
  /\ BuildReferencesDecorator.find Scenario.object Scenario.two_sets Scenario.logger true
       (Scenario.system_of Scenario.with_broken_probe [])
     = (Throw (JsError "probe failed"),
        new_Sys (Scenario.world_of Scenario.with_broken_probe []) [EvCanCreate 2 Scenario.logger]).
Proof.
  apply (findFactory_probe_error Scenario.object Scenario.two_sets Scenario.logger
           (Scenario.system_of Scenario.with_broken_probe [])
           (Scenario.world_of Scenario.with_broken_probe [])
           [3] 2 [1]
           (Scenario.world_of Scenario.with_broken_probe [])
           (Scenario.system_of Scenario.with_broken_probe [])); reflexivity.
Defined.


(** Three components, the second of which fails to open. *)
Lemma open_failure_aborts_witness :
  RunReferencesDecorator.open Scenario.object Scenario.two_sets Scenario.c1
    (Scenario.closed_run Scenario.three_services)
  = (Ret (Some (JsError "open failed")),
     RunReferencesDecorator.new_State false
       (new_Sys (Scenario.world_of Scenario.three_services [])
          ([] ++ map (fun h => EvOpen h Scenario.c1) (filter (has_open Scenario.object) [3])
              ++ [EvOpen 4 Scenario.c1]))).
Proof.
  apply (open_failure_aborts Scenario.object Scenario.two_sets Scenario.c1
           (Scenario.closed_run Scenario.three_services) [3] 4 [10]
           (Scenario.world_of Scenario.three_services [])
           (new_Sys (Scenario.world_of Scenario.three_services []) [EvOpen 3 Scenario.c1])
           (fun _ => throw (JsError "open failed"))); reflexivity.
Defined.

(** Closing the same three components: the second fails to close, the
    error is reported and the decorator is closed all the same. *)
Lemma close_always_closes_witness :
  exists err s',
    Closer.close Scenario.object Scenario.c1 [3; 4; 10]
      (new_Sys (Scenario.world_of Scenario.three_services []) []) = (Ret err, s')
    /\ RunReferencesDecorator.close Scenario.object Scenario.two_sets Scenario.c1
         (Scenario.opened_run Scenario.three_services)
       = (Ret err, RunReferencesDecorator.new_State false s').
Proof.
  apply (proj1 (close_always_closes Scenario.object Scenario.two_sets Scenario.c1
                  (Scenario.opened_run Scenario.three_services))
           eq_refl [3; 4; 10] (Scenario.world_of Scenario.three_services []) eq_refl).
Defined.

Example close_failure_example :
  fst (RunReferencesDecorator.close Scenario.object Scenario.two_sets Scenario.c1
         (Scenario.opened_run Scenario.three_services))
  = Ret (Some (JsError "close failed"))
  /\ RunReferencesDecorator._opened
       (snd (RunReferencesDecorator.close Scenario.object Scenario.two_sets Scenario.c1
               (Scenario.opened_run Scenario.three_services))) = false.
Proof. split; reflexivity. Qed.

(** Adding the component that fails to open: while closed it is only
    stored; while opened its open is called and the failure is dropped. *)
Lemma put_opens_when_opened_witness :
  RunReferencesDecorator.put Scenario.object Scenario.two_sets Scenario.logger 4
    (Scenario.closed_run [])
  = (Ret tt,
     RunReferencesDecorator.new_State false
       (new_Sys (References.update (Scenario.world_of [] []) 0
                   [new_Reference Scenario.logger 4]) []))
  /\ RunReferencesDecorator.put Scenario.object Scenario.two_sets Scenario.logger 4
       (Scenario.opened_run [])
     = (Ret tt,
        RunReferencesDecorator.new_State true
          (new_Sys (References.update (Scenario.world_of [] []) 0
                      [new_Reference Scenario.logger 4]) [EvOpen 4 None])).
Proof.
  split.
  - apply (proj1 (put_opens_when_opened Scenario.object Scenario.two_sets Scenario.logger 4
                    (Scenario.closed_run [])
                    (References.update (Scenario.world_of [] []) 0
                       [new_Reference Scenario.logger 4]) eq_refl) eq_refl).
  - apply (proj1 (proj2 (put_opens_when_opened Scenario.object Scenario.two_sets
                           Scenario.logger 4 (Scenario.opened_run [])
                           (References.update (Scenario.world_of [] []) 0
                              [new_Reference Scenario.logger 4]) eq_refl) eq_refl)
             (fun _ => throw (JsError "open failed")) eq_refl).
Defined.

(** Opening twice: the two components that can be opened are opened once. *)
Lemma open_twice_witness :
  RunReferencesDecorator.open Scenario.object Scenario.two_sets None
    (RunReferencesDecorator.new_State true
       (new_Sys (Scenario.world_of Scenario.sound_services [])
          [EvOpen 3 Scenario.c1; EvOpen 10 Scenario.c1]))
  = (Ret None,
     RunReferencesDecorator.new_State true
       (new_Sys (Scenario.world_of Scenario.sound_services [])
          [EvOpen 3 Scenario.c1; EvOpen 10 Scenario.c1])).
Proof.
  apply (proj1 (open_twice Scenario.object Scenario.two_sets Scenario.c1 None
                  (Scenario.closed_run Scenario.sound_services)
                  (RunReferencesDecorator.new_State true
                     (new_Sys (Scenario.world_of Scenario.sound_services [])
                        [EvOpen 3 Scenario.c1; EvOpen 10 Scenario.c1]))
                  eq_refl)).
Defined.

(** ** ProcessContainer: the command line *)

Section CommandLine.

Lemma showHelp_complete args :
  In "--help"%string args \/ In "-h"%string args -> ProcessContainer.showHelp args = true.
Proof.
  induction args as [|arg rest IH]; simpl.
  - intros [[]|[]].
  - intros [[->|Hin]|[->|Hin]]; try reflexivity;
      destruct (String.eqb arg "--help" || String.eqb arg "-h"); auto.
Qed.

(** X1. [showHelp] answers true exactly when one of the arguments, at any
    position, is "--help" or "-h". *)
Theorem showHelp_iff args :
  ProcessContainer.showHelp args = true
  <-> In "--help"%string args \/ In "-h"%string args.
Proof.
  split; [|apply showHelp_complete].
  induction args as [|arg rest IH]; simpl; [discriminate|].
  destruct (String.eqb_spec arg "--help") as [->|Hlong]; [auto|].
  destruct (String.eqb_spec arg "-h") as [->|Hshort]; [auto|].
  simpl. intros H. destruct (IH H); auto.
Qed.

Lemma getConfigPath_plain default arg rest :
  ProcessContainer.is_config arg = false ->
  ProcessContainer.getConfigPath default (arg :: rest)
  = ProcessContainer.getConfigPath default rest.
Proof. intros Hflag. simpl. rewrite Hflag. now destruct (ProcessContainer.next_arg rest). Qed.

Lemma getConfigPath_no_value default arg rest :
  ProcessContainer.next_arg rest = None ->
  ProcessContainer.getConfigPath default (arg :: rest)
  = ProcessContainer.getConfigPath default rest.
Proof. intros Hnone. simpl. now rewrite Hnone. Qed.

Lemma getConfigPath_no_flag default args :
  (forall a, In a args -> ProcessContainer.is_config a = false) ->
  ProcessContainer.getConfigPath default args = default.
Proof.
  induction args as [|a args IH]; intros Hargs; [reflexivity|].
  rewrite getConfigPath_plain by (apply Hargs; now left).
  apply IH. intros b Hb. apply Hargs. now right.
Qed.

Lemma next_arg_dashed dashed rest :
  String.prefix "-" dashed = true -> ProcessContainer.next_arg (dashed :: rest) = None.
Proof.
  intros Hdash. simpl. rewrite Hdash, andb_true_r.
  destruct dashed as [|ch dashed]; [discriminate Hdash|reflexivity].
Qed.

(** X2. [getConfigPath] returns the path after the first "--config" or
    "-c": when no argument before the flag is such a flag and the argument
    after it does not start with a dash, that argument is the result,
    whatever follows. *)
Theorem getConfigPath_first default pre flag p post :
  (forall a, In a pre -> ProcessContainer.is_config a = false) ->
  ProcessContainer.is_config flag = true ->
  String.prefix "-" p = false ->
  ProcessContainer.getConfigPath default (pre ++ flag :: p :: post) = p.
Proof.
  intros Hpre Hflag Hp. induction pre as [|a pre IH].
  - simpl. now rewrite Hp, andb_false_r, Hflag.
  - cbn [app]. rewrite getConfigPath_plain by (apply Hpre; now left).
    apply IH. intros b Hb. apply Hpre. now right.
Qed.

(** X3. [getConfigPath] falls back to the default path when no argument is
    "--config" or "-c", and also when the only such flag is the last
    argument or is followed by an argument that starts with a dash. *)
Theorem getConfigPath_default default args :
  (forall a, In a args -> ProcessContainer.is_config a = false) ->
  ProcessContainer.getConfigPath default args = default
  /\ (forall flag, ProcessContainer.getConfigPath default (args ++ [flag]) = default)
  /\ (forall flag dashed rest,
         String.prefix "-" dashed = true ->
         (forall a, In a (dashed :: rest) -> ProcessContainer.is_config a = false) ->
         ProcessContainer.getConfigPath default (args ++ flag :: dashed :: rest) = default).
Proof.
  intros Hargs. split; [now apply getConfigPath_no_flag|]. split.
  - intros flag. induction args as [|a args IH]; [reflexivity|].
    cbn [app]. rewrite getConfigPath_plain by (apply Hargs; now left).
    apply IH. intros b Hb. apply Hargs. now right.
  - intros flag dashed rest Hdash Hrest. induction args as [|a args IH].
    + cbn [app]. rewrite getConfigPath_no_value by now apply next_arg_dashed.
      now apply getConfigPath_no_flag.
    + cbn [app]. rewrite getConfigPath_plain by (apply Hargs; now left).
      apply IH. intros b Hb. apply Hargs. now right.
Qed.

(** X4. Whatever the arguments, the result of [getConfigPath] is the
    default path or an argument that stands right after a "--config" or
    "-c" and does not start with a dash. *)
Theorem getConfigPath_sound default args :
  ProcessContainer.getConfigPath default args = default
  \/ exists pre flag post,
      args = pre ++ flag :: ProcessContainer.getConfigPath default args :: post
      /\ ProcessContainer.is_config flag = true
      /\ String.prefix "-" (ProcessContainer.getConfigPath default args) = false.
Proof.
  induction args as [|arg rest IH]; [now left|].
  assert (Hrec : ProcessContainer.getConfigPath default rest = default
                 \/ exists pre flag post,
                     arg :: rest
                     = pre ++ flag :: ProcessContainer.getConfigPath default rest :: post
                     /\ ProcessContainer.is_config flag = true
                     /\ String.prefix "-" (ProcessContainer.getConfigPath default rest) = false).
  { destruct IH as [IH|[pre [flag [post [Heq [Hflag Hdash]]]]]]; [now left|].
    right. exists (arg :: pre), flag, post. simpl. now rewrite <- Heq. }
  destruct (ProcessContainer.next_arg rest) as [nextArg|] eqn:Hnext;
    [|now rewrite getConfigPath_no_value].
  destruct (ProcessContainer.is_config arg) eqn:Hflag;
    [|now rewrite getConfigPath_plain].
  right. simpl. rewrite Hnext, Hflag.
  destruct rest as [|raw rest']; [discriminate Hnext|].
  simpl in Hnext.
  destruct (negb (String.eqb raw "") && String.prefix "-" raw) eqn:Hskip;
    [discriminate Hnext|].
  inversion Hnext. subst nextArg.
  exists [], arg, rest'. repeat split; [exact Hflag|].
  destruct raw as [|ch raw]; [reflexivity|exact Hskip].
Qed.

Lemma append_assoc (a b c : string) :
  String.append (String.append a b) c = String.append a (String.append b c).
Proof. induction a as [|ch a IH]; simpl; [reflexivity|now rewrite IH]. Qed.

Lemma length_positive (line : string) :
  line <> EmptyString -> (0 <? String.length line) = true.
Proof. destruct line; [congruence|reflexivity]. Qed.

Lemma next_arg_plain v rest :
  String.prefix "-" v = false -> ProcessContainer.next_arg (v :: rest) = Some v.
Proof. intros H. simpl. now rewrite H, andb_false_r. Qed.

Lemma parameters_line_pairs line (pairs : list (string * string)) :
  line <> EmptyString ->
  (forall flag v, In (flag, v) pairs ->
                  ProcessContainer.is_param flag = true
                  /\ v <> EmptyString /\ String.prefix "-" v = false) ->
  ProcessContainer.parameters_line line
    (flat_map (fun fv => [fst fv; snd fv]) pairs)
  = String.concat ";" (line :: map snd pairs).
Proof.
  revert line. induction pairs as [|[flag v] pairs IH]; intros line Hline Hok.
  - reflexivity.
  - destruct (Hok flag v (or_introl eq_refl)) as [Hflag [Hv Hdash]].
    cbn [flat_map fst snd app ProcessContainer.parameters_line map].
    rewrite (next_arg_plain v _ Hdash), Hflag.
    unfold ProcessContainer.add_param. rewrite (length_positive line Hline).
    rewrite IH.
    + destruct pairs as [|[flag' v'] pairs]; cbn [map snd String.concat].
      * now rewrite append_assoc.
      * now rewrite !append_assoc.
    + destruct line; [congruence|discriminate].
    + intros f w Hin. apply Hok. now right.
Qed.

(** X5. Parameters given as flag and value pairs come back joined: for
    arguments made of pairs whose flag is "--param", "--params" or "-p" and
    whose value is not empty and does not start with a dash, the line that
    [getParameters] parses is the values separated by semicolons, in
    order. *)
Theorem parameters_line_joined (pairs : list (string * string)) :
  (forall flag v, In (flag, v) pairs ->
                  ProcessContainer.is_param flag = true
                  /\ v <> EmptyString /\ String.prefix "-" v = false) ->
  ProcessContainer.parameters_line "" (flat_map (fun fv => [fst fv; snd fv]) pairs)
  = String.concat ";" (map snd pairs).
Proof.
  intros Hok. destruct pairs as [|[flag v] pairs]; [reflexivity|].
  destruct (Hok flag v (or_introl eq_refl)) as [Hflag [Hv Hdash]].
  cbn [flat_map fst snd app ProcessContainer.parameters_line map].
  rewrite (next_arg_plain v _ Hdash), Hflag.
  unfold ProcessContainer.add_param. cbn [String.length Nat.ltb Nat.leb String.append].
  apply parameters_line_pairs; [exact Hv|].
  intros f w Hin. apply Hok. now right.
Qed.

Lemma parameters_line_plain line arg rest :
  ProcessContainer.is_param arg = false ->
  ProcessContainer.parameters_line line (arg :: rest)
  = ProcessContainer.parameters_line line rest.
Proof.
  intros Hflag. destruct rest as [|raw rest']; [reflexivity|].
  cbn [ProcessContainer.parameters_line]. rewrite Hflag.
  now destruct (ProcessContainer.next_arg (raw :: rest')).
Qed.

(** X6. Arguments that hold no "--param", "--params" or "-p" leave the
    parameter line as it was, so [getParameters] parses the empty line for
    them; the same holds when the only such flag is the last argument. *)
Theorem parameters_line_untouched line args :
  (forall a, In a args -> ProcessContainer.is_param a = false) ->
  ProcessContainer.parameters_line line args = line
  /\ forall flag, ProcessContainer.parameters_line line (args ++ [flag]) = line.
Proof.
  intros Hargs. split.
  - induction args as [|a args IH]; [reflexivity|].
    rewrite parameters_line_plain by (apply Hargs; now left).
    apply IH. intros b Hb. apply Hargs. now right.
  - intros flag. induction args as [|a args IH]; [reflexivity|].
    cbn [app]. rewrite parameters_line_plain by (apply Hargs; now left).
    apply IH. intros b Hb. apply Hargs. now right.
Qed.

End CommandLine.

(** ** ProcessContainer: run *)

Section RunProcess.
Context {C ConfigParams Env : Type}
  (fromString : string -> ConfigParams)
  (append : ConfigParams -> Env -> ConfigParams)
  (readConfigFromFile : string -> string -> ConfigParams -> M C unit)
  (open : string -> M C unit).

(** X7. When "--help" or "-h" stands anywhere among the arguments, [run]
    writes the two help lines to the console and does nothing else: the
    configuration is not read, no handler is registered, nothing is logged
    and the container is not opened, whatever the other arguments are. *)
Theorem run_help_only name default (env : Env) args (p : ProcessContainer.Process C) :
  In "--help"%string args \/ In "-h"%string args ->
  ProcessContainer.run fromString append readConfigFromFile open name default env args p
  = (Ret tt,
     ProcessContainer.new_Process
       (ProcessContainer.console p
        ++ ["Pip.Services process container - http://www.github.com/pip-services/pip-services"%string;
            "run [-h] [-c <config file>] [-p <param>=<value>]*"%string])
       (ProcessContainer.logged p) (ProcessContainer.handlers p)
       (ProcessContainer.container p)).
Proof.
  intros Hhelp. unfold ProcessContainer.run.
  rewrite (showHelp_complete args Hhelp).
  unfold ProcessContainer.printHelp, ProcessContainer.console_log, bind. simpl.
  now rewrite <- app_assoc.
Qed.

(** X8. Without a help flag, [run] first reads the configuration, with the
    container's name as correlation id, the path [getConfigPath] found and
    the parameters [getParameters] built. When that read throws, [run]
    throws the same error at once: no handler is registered, nothing is
    logged and the container is not opened. When it succeeds, the handlers
    for uncaughtException, SIGINT and exit are registered in that order,
    the Control-C notice is logged, and the container is opened last, so
    that what [open] throws is what [run] throws. *)
Theorem run_reads_then_opens name default (env : Env) args (p : ProcessContainer.Process C) r c1 :
  ProcessContainer.showHelp args = false ->
  readConfigFromFile name (ProcessContainer.getConfigPath default args)
    (ProcessContainer.getParameters fromString append env args) (ProcessContainer.container p)
  = (r, c1) ->
  ProcessContainer.run fromString append readConfigFromFile open name default env args p
  = match r with
    | Throw e =>
      (Throw e,
       ProcessContainer.new_Process (ProcessContainer.console p) (ProcessContainer.logged p)
         (ProcessContainer.handlers p) c1)
    | Ret _ =>
      (fst (open name c1),
       ProcessContainer.new_Process (ProcessContainer.console p)
         (ProcessContainer.logged p
          ++ [(name, "Press Control-C to stop the microservice..."%string)])
         (ProcessContainer.handlers p
          ++ ["uncaughtException"%string; "SIGINT"%string; "exit"%string])
         (snd (open name c1)))
    end.
Proof.
  intros Hhelp Hread. unfold ProcessContainer.run. rewrite Hhelp.
  unfold bind at 1. unfold ProcessContainer.liftC at 1. rewrite Hread.
  destruct r as [u|e]; [|reflexivity].
  unfold ProcessContainer.captureErrors, ProcessContainer.captureExit,
    ProcessContainer.process_on, ProcessContainer.logger_info,
    ProcessContainer.liftC, bind.
  simpl. destruct (open name c1) as [r2 c2]. simpl.
  rewrite <- !app_assoc. reflexivity.
Qed.

End RunProcess.

(** ** BuildReferencesDecorator: the other paths *)

Section BuildPaths.
Context {Heap : Type} (object : handle -> Component.t Heap).

(** X9. [create] never throws. With no factory it returns null and calls
    nothing; with a factory it returns what the factory's [create] returns,
    and null when that call throws (also when the object has no [create]
    method); the state is the one the call left. *)
Theorem create_swallows (this : ReferencesDecorator.t Heap) loc s :
  BuildReferencesDecorator.create object this loc None s = (Ret None, s)
  /\ forall f,
      (forall c s', call_create object f loc s = (Ret c, s') ->
                    BuildReferencesDecorator.create object this loc (Some f) s = (Ret c, s'))
      /\ (forall e s', call_create object f loc s = (Throw e, s') ->
                       BuildReferencesDecorator.create object this loc (Some f) s
                       = (Ret None, s'))
      /\ (Component.create (object f) = None ->
          BuildReferencesDecorator.create object this loc (Some f) s = (Ret None, s)).
Proof.
  split; [reflexivity|]. intros f. split; [|split].
  - intros c s' H. now apply create_run.
  - intros e s' H. unfold BuildReferencesDecorator.create, try_catch. now rewrite H.
  - intros Hnone. unfold BuildReferencesDecorator.create, try_catch, call_create.
    now rewrite Hnone.
Qed.

(** X10. An optional lookup never builds: with [required] false, [find] of
    the build decorator is the base lookup and nothing more, whether that
    finds components, finds none or throws. No factory is probed, nothing
    is created and nothing is put into the parent. *)
Theorem find_optional_is_base (this : ReferencesDecorator.t Heap) loc s :
  BuildReferencesDecorator.find object this loc false s
  = ReferencesDecorator.find this loc false s.
Proof.
  unfold BuildReferencesDecorator.find, bind.
  destruct (ReferencesDecorator.find this loc false s) as [[cs|e] s1]; reflexivity.
Qed.

Lemma build_not_created (this : ReferencesDecorator.t Heap) loc comps s factory s2 s3 :
  BuildReferencesDecorator.findFactory object this loc s = (Ret factory, s2) ->
  BuildReferencesDecorator.create object this loc factory s2 = (Ret None, s3) ->
  BuildReferencesDecorator.build object this loc comps s = (Ret (loc, comps), s3).
Proof.
  intros Hf Hc. unfold BuildReferencesDecorator.build.
  now rewrite (bind_ret _ _ _ _ _ Hf), (bind_ret _ _ _ _ _ Hc).
Qed.

(** X11. A construction failure degrades to "not found": on a required
    lookup that misses the base and finds a factory, when the factory's
    [create] throws or returns null, [find] throws a ReferenceException
    with the locator it was given; the factory's own error is not what the
    caller sees, and the parent is not written (the state is the one the
    failed [create] left). *)
Theorem find_construction_failure
  (this : ReferencesDecorator.t Heap) loc s w1 f s2 r s3 :
  IReferences.find (ReferencesDecorator.baseReferences this) loc false (world s) = (Ret [], w1) ->
  BuildReferencesDecorator.findFactory object this loc (new_Sys w1 (trace s)) = (Ret (Some f), s2) ->
  call_create object f loc s2 = (r, s3) ->
  (forall c, r <> Ret (Some c)) ->
  BuildReferencesDecorator.find object this loc true s
  = (Throw (ReferenceException None loc), s3).
Proof.
  intros Hbase Hf Hc Hnone.
  assert (Hcreate : BuildReferencesDecorator.create object this loc (Some f) s2 = (Ret None, s3)).
  { unfold BuildReferencesDecorator.create, try_catch. rewrite Hc.
    destruct r as [[c|]|e]; try reflexivity. now elim (Hnone c). }
  rewrite (find_miss_run object this loc s w1 Hbase).
  now rewrite (bind_ret _ _ _ _ _ (build_not_created this loc [] _ _ _ _ Hf Hcreate)).
Qed.

Lemma build_clarify_error (this : ReferencesDecorator.t Heap) loc comps s f s2 c s3 e s4 :
  BuildReferencesDecorator.findFactory object this loc s = (Ret (Some f), s2) ->
  BuildReferencesDecorator.create object this loc (Some f) s2 = (Ret (Some c), s3) ->
  BuildReferencesDecorator.clarifyLocator object this loc (Some f) s3 = (Throw e, s4) ->
  BuildReferencesDecorator.build object this loc comps s = (Ret (loc, comps), s4).
Proof.
  intros Hf Hc Hl. unfold BuildReferencesDecorator.build.
  rewrite (bind_ret _ _ _ _ _ Hf), (bind_ret _ _ _ _ _ Hc).
  now rewrite (bind_ret _ _ _ _ _ (attempt_run _ _ _ _ Hl)).
Qed.

(** X12. Inside [find] the probe that [clarifyLocator] repeats is guarded:
    when the factory was found and built a component but its [canCreate]
    throws on this second call, the error is swallowed, the built component
    is dropped (neither returned nor put into the parent) and [find] throws
    a ReferenceException with the locator it was given. *)
Theorem find_clarify_failure
  (this : ReferencesDecorator.t Heap) d s w1 f s2 c s3 e s4 :
  IReferences.find (ReferencesDecorator.baseReferences this) (LDescriptor d) false (world s)
  = (Ret [], w1) ->
  BuildReferencesDecorator.findFactory object this (LDescriptor d) (new_Sys w1 (trace s))
  = (Ret (Some f), s2) ->
  call_create object f (LDescriptor d) s2 = (Ret (Some c), s3) ->
  call_canCreate object f (LDescriptor d) s3 = (Throw e, s4) ->
  BuildReferencesDecorator.find object this (LDescriptor d) true s
  = (Throw (ReferenceException None (LDescriptor d)), s4).
Proof.
  intros Hbase Hf Hc Hprobe.
  assert (Hl : BuildReferencesDecorator.clarifyLocator object this (LDescriptor d) (Some f) s3
               = (Throw e, s4)).
  { unfold BuildReferencesDecorator.clarifyLocator. now rewrite (bind_throw _ _ _ _ _ Hprobe). }
  rewrite (find_miss_run object this (LDescriptor d) s w1 Hbase).
  now rewrite (bind_ret _ _ _ _ _
                 (build_clarify_error this (LDescriptor d) [] _ _ _ _ _ _ _
                    Hf (create_run object this _ f s2 _ _ Hc) Hl)).
Qed.

Lemma invoke_trace {A} ev (c : M (World Heap) A) s r s' :
  invoke ev c s = (r, s') -> trace s' = trace s ++ [ev].
Proof.
  unfold invoke. destruct (c (world s)) as [r0 w]. intros H. now inversion H.
Qed.

Lemma liftW_trace {A} (c : M (World Heap) A) s r s' :
  liftW c s = (r, s') -> trace s' = trace s.
Proof.
  unfold liftW. destruct (c (world s)) as [r0 w]. intros H. now inversion H.
Qed.

Lemma call_canCreate_trace c loc s r s' :
  call_canCreate object c loc s = (r, s') ->
  trace s' = trace s \/ trace s' = trace s ++ [EvCanCreate c loc].
Proof.
  unfold call_canCreate. destruct (Component.canCreate (object c)) as [f|].
  - intros H. right. exact (invoke_trace _ _ _ _ _ H).
  - unfold throw. intros H. left. now inversion H.
Qed.

Lemma probe_trace c loc s r s' :
  is_factory object c = true ->
  call_canCreate object c loc s = (r, s') ->
  trace s' = trace s ++ [EvCanCreate c loc].
Proof.
  unfold is_factory, call_canCreate.
  destruct (Component.canCreate (object c)) as [g|]; [|discriminate].
  intros _. apply invoke_trace.
Qed.

Lemma scan_passed_trace pre loc s s2 :
  BuildReferencesDecorator.findFactory_scan object pre loc s = (Ret None, s2) ->
  trace s2 = trace s ++ map (fun c => EvCanCreate c loc) (filter (is_factory object) pre).
Proof.
  revert s. induction pre as [|c pre IH]; intros s; simpl.
  - unfold ret. intros H. inversion H. now rewrite app_nil_r.
  - destruct (is_factory object c) eqn:Hcap; [|apply IH].
    unfold bind.
    destruct (call_canCreate object c loc s) as [[answer|e] s1] eqn:Hprobe; [|discriminate].
    destruct (truthy answer); [discriminate|].
    intros H. rewrite (IH _ H), (probe_trace c loc s _ _ Hcap Hprobe).
    simpl. now rewrite <- app_assoc.
Qed.

(** X13. [findFactory] returns the first registered component that has
    both factory methods and whose probe answers a truthy value: when every
    component before [f] declines the locator (it lacks a factory method,
    or its probe answers a falsy value) and [f] accepts it, the result is
    [f]. The factories before [f] were each probed once, in order, then
    [f] was, and the components after [f] are not probed. *)
Theorem findFactory_first_match
  (this : ReferencesDecorator.t Heap) loc s pre f post w1 :
  IReferences.getAll (ReferencesDecorator.baseReferences this) (world s)
  = (Ret (pre ++ f :: post), w1) ->
  (forall c, In c pre -> declines object c loc) ->
  accepts object f loc ->
  exists s3,
    BuildReferencesDecorator.findFactory object this loc s = (Ret (Some f), s3)
    /\ trace s3
       = trace s
         ++ map (fun c => EvCanCreate c loc) (filter (is_factory object) pre)
         ++ [EvCanCreate f loc].
Proof.
  intros Hall Hpre Hacc.
  destruct (scan_first object pre f post loc (new_Sys w1 (trace s)) Hpre Hacc)
    as [s2 [answer [s3 [Hscan [Hprobe [_ Hf]]]]]].
  exists s3. split.
  - now rewrite (findFactory_run object this loc s _ w1 Hall).
  - rewrite (probe_trace f loc s2 _ _ (proj1 Hacc) Hprobe).
    rewrite (scan_passed_trace pre loc _ _ Hscan). simpl.
    now rewrite <- app_assoc.
Qed.

Lemma scan_trace comps loc s r s' :
  BuildReferencesDecorator.findFactory_scan object comps loc s = (r, s') ->
  (exists evs,
      trace s' = trace s ++ evs
      /\ Forall (fun ev => exists c, ev = EvCanCreate c loc
                                     /\ In c comps /\ is_factory object c = true) evs)
  /\ (forall f, r = Ret (Some f) -> In f comps /\ is_factory object f = true).
Proof.
  revert s. induction comps as [|c comps IH]; intros s; simpl.
  - unfold ret. intros H. inversion H. split; [|discriminate].
    exists []. split; [now rewrite app_nil_r|constructor].
  - assert (Hweak : forall s0,
               BuildReferencesDecorator.findFactory_scan object comps loc s0 = (r, s') ->
               (exists evs,
                   trace s' = trace s0 ++ evs
                   /\ Forall (fun ev => exists c', ev = EvCanCreate c' loc
                                                   /\ (c = c' \/ In c' comps)
                                                   /\ is_factory object c' = true) evs)
               /\ (forall f, r = Ret (Some f) ->
                             (c = f \/ In f comps) /\ is_factory object f = true)).
    { intros s0 H. destruct (IH s0 H) as [[evs [Htr Hall]] Hres]. split.
      - exists evs. split; [exact Htr|].
        eapply Forall_impl; [|exact Hall].
        intros ev [c' [Hev [Hin Hcap]]]. exists c'. auto.
      - intros f Hf. destruct (Hres f Hf). auto. }
    destruct (is_factory object c) eqn:Hcap; [|apply Hweak].
    unfold bind.
    destruct (call_canCreate object c loc s) as [[answer|e] s1] eqn:Hprobe.
    + assert (Hone : trace s1 = trace s ++ [EvCanCreate c loc]).
      { revert Hprobe. unfold call_canCreate.
        destruct (Component.canCreate (object c)) as [g|];
          [apply invoke_trace|discriminate]. }
      destruct (truthy answer).
      * unfold ret. intros H. inversion H. subst. split.
        -- exists [EvCanCreate c loc]. split; [exact Hone|].
           constructor; [|constructor]. exists c. auto.
        -- intros f Hf. inversion Hf. subst. auto.
      * intros H. destruct (Hweak s1 H) as [[evs [Htr Hall]] Hres]. split; [|exact Hres].
        exists (EvCanCreate c loc :: evs). split.
        -- rewrite Htr, Hone, <- app_assoc. reflexivity.
        -- constructor; [|exact Hall]. exists c. auto.
    + intros H. inversion H. subst. split; [|discriminate].
      destruct (call_canCreate_trace c loc s _ _ Hprobe) as [Hsame|Hone].
      * exists []. split; [now rewrite app_nil_r|constructor].
      * exists [EvCanCreate c loc]. split; [exact Hone|].
        constructor; [|constructor]. exists c. auto.
Qed.

(** X14. Whatever [findFactory] does, the only calls it makes are
    [canCreate] probes, with the locator it was given, on registered
    components that have both factory methods; it never calls [create],
    [open] or [close]. A factory it returns is one of the registered
    components and has both methods. *)
Theorem findFactory_only_probes
  (this : ReferencesDecorator.t Heap) loc s comps w1 r s' :
  IReferences.getAll (ReferencesDecorator.baseReferences this) (world s) = (Ret comps, w1) ->
  BuildReferencesDecorator.findFactory object this loc s = (r, s') ->
  (exists evs,
      trace s' = trace s ++ evs
      /\ Forall (fun ev => exists c, ev = EvCanCreate c loc
                                     /\ In c comps /\ is_factory object c = true) evs)
  /\ (forall f, r = Ret (Some f) -> In f comps /\ is_factory object f = true).
Proof.
  intros Hall. unfold BuildReferencesDecorator.findFactory, ReferencesDecorator.getAll.
  rewrite (bind_ret _ _ _ _ _ (liftW_run _ _ _ _ Hall)).
  intros Hscan. exact (scan_trace comps loc _ r s' Hscan).
Qed.

Lemma create_some (this : ReferencesDecorator.t Heap) loc factory s c s' :
  BuildReferencesDecorator.create object this loc factory s = (Ret (Some c), s') ->
  exists f, factory = Some f /\ call_create object f loc s = (Ret (Some c), s').
Proof.
  unfold BuildReferencesDecorator.create. destruct factory as [f|]; [|discriminate].
  unfold try_catch.
  destruct (call_create object f loc s) as [[r|e] s1] eqn:Hcall; unfold ret;
    intros H; inversion H.
  subst. exists f. split; [reflexivity|exact Hcall].
Qed.

Lemma build_result (this : ReferencesDecorator.t Heap) loc comps s l cs s' :
  BuildReferencesDecorator.build object this loc comps s = (Ret (l, cs), s') ->
  cs = comps
  \/ exists f s2 c s3 loc' s4,
      BuildReferencesDecorator.findFactory object this loc s = (Ret (Some f), s2)
      /\ call_create object f loc s2 = (Ret (Some c), s3)
      /\ BuildReferencesDecorator.clarifyLocator object this loc (Some f) s3 = (Ret loc', s4)
      /\ fst (IReferences.put (ReferencesDecorator.parentReferences this) loc' c (world s4))
         = Ret tt
      /\ cs = comps ++ [c].
Proof.
  unfold BuildReferencesDecorator.build, bind, attempt, ret.
  destruct (BuildReferencesDecorator.findFactory object this loc s)
    as [[factory|e] s2] eqn:Hf; [|discriminate].
  destruct (BuildReferencesDecorator.create object this loc factory s2)
    as [[[c|]|e] s3] eqn:Hc; try discriminate.
  - destruct (create_some this loc factory s2 c s3 Hc) as [f [-> Hcall]].
    destruct (BuildReferencesDecorator.clarifyLocator object this loc (Some f) s3)
      as [[loc'|e] s4] eqn:Hl.
    + unfold liftW.
      destruct (IReferences.put (ReferencesDecorator.parentReferences this) loc' c (world s4))
        as [[u|e] w5] eqn:Hp; intros H; inversion H; subst; [|now left].
      right. exists f, s2, c, s3, l, s4. rewrite Hp. destruct u. auto.
    + intros H. inversion H. now left.
  - intros H. inversion H. now left.
Qed.

(** X15. A required [find] that returns never returns an empty list. It
    returns the base result when that is not empty. Otherwise it returns
    exactly one component, the one just built: the component that the
    [create] of the factory found by [findFactory] returned, after it was
    put into the parent under the clarified locator. *)
Theorem find_required_result (this : ReferencesDecorator.t Heap) loc s cs s' :
  BuildReferencesDecorator.find object this loc true s = (Ret cs, s') ->
  cs <> []
  /\ forall cs0 w1,
      IReferences.find (ReferencesDecorator.baseReferences this) loc false (world s)
      = (Ret cs0, w1) ->
      (cs0 <> [] /\ cs = cs0)
      \/ (cs0 = []
          /\ exists f s2 c s3 loc' s4,
              BuildReferencesDecorator.findFactory object this loc (new_Sys w1 (trace s))
              = (Ret (Some f), s2)
              /\ call_create object f loc s2 = (Ret (Some c), s3)
              /\ BuildReferencesDecorator.clarifyLocator object this loc (Some f) s3
                 = (Ret loc', s4)
              /\ fst (IReferences.put (ReferencesDecorator.parentReferences this)
                        loc' c (world s4)) = Ret tt
              /\ cs = [c]).
Proof.
  intros Hrun.
  assert (Hne : cs <> []).
  { revert Hrun. unfold BuildReferencesDecorator.find. unfold bind at 1.
    destruct (ReferencesDecorator.find this loc false s) as [[cs0|e] s1]; [|discriminate].
    unfold bind.
    destruct ((if true && (List.length cs0 =? 0)
               then BuildReferencesDecorator.build object this loc cs0
               else ret (loc, cs0)) s1) as [[[l cs1]|e] s2]; [|discriminate].
    simpl. destruct cs1 as [|c cs1]; simpl; [discriminate|].
    unfold ret. intros H. inversion H. discriminate. }
  split; [exact Hne|].
  intros cs0 w1 Hbase. destruct cs0 as [|c0 cs0].
  - right. split; [reflexivity|].
    rewrite (find_miss_run object this loc s w1 Hbase) in Hrun.
    unfold bind in Hrun.
    destruct (BuildReferencesDecorator.build object this loc [] (new_Sys w1 (trace s)))
      as [[[l cs1]|e] s2] eqn:Hbuild; [|discriminate].
    simpl in Hrun.
    destruct (build_result this loc [] _ _ _ _ Hbuild)
      as [->|[f [s3 [c [s4 [loc' [s5 [Hf [Hc [Hl [Hp ->]]]]]]]]]]].
    + discriminate Hrun.
    + exists f, s3, c, s4, loc', s5. simpl in Hrun. unfold ret in Hrun.
      inversion Hrun. auto.
  - left. split; [discriminate|].
    rewrite (find_hit_run object this loc true s (c0 :: cs0) w1 Hbase) in Hrun
      by discriminate.
    now inversion Hrun.
Qed.

Lemma match_field_narrow r d a :
  match_field r (BuildReferencesDecorator.or_else d a) = true -> match_field r d = true.
Proof. destruct d as [x|]; simpl; [auto|]. intros _. now destruct r. Qed.

(** X16. Clarifying only narrows a locator: every stored locator that
    matches the locator [clarifyLocator] returns also matches the locator
    it was given, whatever the factory answered. *)
Theorem clarifyLocator_narrows (this : ReferencesDecorator.t Heap) loc factory s loc' s' :
  BuildReferencesDecorator.clarifyLocator object this loc factory s = (Ret loc', s') ->
  forall stored, matches stored loc' = true -> matches stored loc = true.
Proof.
  unfold BuildReferencesDecorator.clarifyLocator.
  destruct factory as [f|]; [|unfold ret; intros H; now inversion H].
  destruct loc as [|b|str|d]; unfold ret; try (intros H; now inversion H).
  unfold bind.
  destruct (call_canCreate object f (LDescriptor d) s) as [[answer|e] s1]; [|discriminate].
  destruct answer as [|b|str|a]; unfold ret; intros H; inversion H; subst; auto.
  intros stored. destruct stored as [|b|str|r]; simpl; auto.
  unfold match_descriptor. simpl. rewrite !andb_true_iff.
  intros [[[[Hg Ht] Hk] Hn] Hv].
  repeat split; eapply match_field_narrow; eassumption.
Qed.

Lemma findFactory_trace (this : ReferencesDecorator.t Heap) loc s r s' :
  BuildReferencesDecorator.findFactory object this loc s = (r, s') ->
  exists evs, trace s' = trace s ++ evs /\ Forall (fun ev => is_probe ev = true) evs.
Proof.
  unfold BuildReferencesDecorator.findFactory, bind.
  destruct (ReferencesDecorator.getAll this s) as [[comps|e] s1] eqn:Hall;
    pose proof (liftW_trace _ _ _ _ Hall) as Hsame.
  - intros Hscan. destruct (scan_trace comps loc s1 r s' Hscan) as [[evs [Htr Hev]] _].
    exists evs. split; [now rewrite Htr, Hsame|].
    eapply Forall_impl; [|exact Hev]. intros ev [c [-> _]]. reflexivity.
  - intros H. inversion H. subst. exists []. split; [now rewrite app_nil_r|constructor].
Qed.

Lemma create_trace (this : ReferencesDecorator.t Heap) loc factory s r s' :
  BuildReferencesDecorator.create object this loc factory s = (r, s') ->
  trace s' = trace s \/ exists f, trace s' = trace s ++ [EvCreate f loc].
Proof.
  unfold BuildReferencesDecorator.create. destruct factory as [f|].
  - unfold try_catch, call_create.
    destruct (Component.create (object f)) as [g|].
    + destruct (invoke (EvCreate f loc) (g loc) s) as [[c|e] s1] eqn:Hcall;
        pose proof (invoke_trace _ _ _ _ _ Hcall) as Hone;
        unfold ret; intros H; inversion H; subst; eauto.
    + unfold throw, ret. intros H. inversion H. now left.
  - unfold ret. intros H. inversion H. now left.
Qed.

Lemma clarifyLocator_trace (this : ReferencesDecorator.t Heap) loc factory s r s' :
  BuildReferencesDecorator.clarifyLocator object this loc factory s = (r, s') ->
  trace s' = trace s \/ exists f, trace s' = trace s ++ [EvCanCreate f loc].
Proof.
  unfold BuildReferencesDecorator.clarifyLocator.
  destruct factory as [f|]; [|unfold ret; intros H; inversion H; now left].
  destruct loc as [|b|str|d]; unfold ret; try (intros H; inversion H; now left).
  unfold bind.
  destruct (call_canCreate object f (LDescriptor d) s) as [[answer|e] s1] eqn:Hprobe;
    pose proof (call_canCreate_trace _ _ _ _ _ Hprobe) as Htr.
  - destruct answer; unfold ret; intros H; inversion H; subst;
      destruct Htr; eauto.
  - intros H. inversion H. subst. destruct Htr; eauto.
Qed.

Lemma probes_hold_no_create evs :
  Forall (fun ev => is_probe ev = true) evs -> filter is_create evs = [].
Proof.
  induction 1 as [|ev evs Hev _ IH]; [reflexivity|].
  simpl. destruct ev; try discriminate Hev. exact IH.
Qed.

Lemma build_calls evs1 evs2 evs3 loc :
  Forall (fun ev => is_probe ev = true) evs1 ->
  evs2 = [] \/ (exists f, evs2 = [EvCreate f loc]) ->
  evs3 = [] \/ (exists f, evs3 = [EvCanCreate f loc]) ->
  Forall (fun ev => is_probe ev = true \/ is_create ev = true) (evs1 ++ evs2 ++ evs3)
  /\ List.length (filter is_create (evs1 ++ evs2 ++ evs3)) <= 1.
Proof.
  intros H1 H2 H3. split.
  - repeat (apply Forall_app; split).
    + eapply Forall_impl; [|exact H1]. auto.
    + destruct H2 as [->|[f ->]]; [constructor|].
      constructor; [now right|constructor].
    + destruct H3 as [->|[f ->]]; [constructor|].
      constructor; [now left|constructor].
  - rewrite !filter_app, (probes_hold_no_create evs1 H1).
    destruct H2 as [->|[f ->]]; destruct H3 as [->|[g ->]]; simpl; lia.
Qed.

Lemma build_trace (this : ReferencesDecorator.t Heap) loc comps s r s' :
  BuildReferencesDecorator.build object this loc comps s = (r, s') ->
  exists evs,
    trace s' = trace s ++ evs
    /\ Forall (fun ev => is_probe ev = true \/ is_create ev = true) evs
    /\ List.length (filter is_create evs) <= 1.
Proof.
  unfold BuildReferencesDecorator.build. unfold bind at 1.
  destruct (BuildReferencesDecorator.findFactory object this loc s)
    as [[factory|e] s2] eqn:Hf;
    destruct (findFactory_trace this loc s _ _ Hf) as [evs1 [Htr1 Hev1]].
  - unfold bind at 1.
    destruct (BuildReferencesDecorator.create object this loc factory s2)
      as [[component|e] s3] eqn:Hc;
      pose proof (create_trace this loc factory s2 _ _ Hc) as Htr2.
    + assert (Hshape : forall s4 : Sys Heap,
                 trace s4 = trace s3
                 \/ (exists f, trace s4 = trace s3 ++ [EvCanCreate f loc]) ->
                 exists evs,
                   trace s4 = trace s ++ evs
                   /\ Forall (fun ev => is_probe ev = true \/ is_create ev = true) evs
                   /\ List.length (filter is_create evs) <= 1).
      { intros s4 Htr3.
        assert (exists evs2, trace s3 = trace s2 ++ evs2
                             /\ (evs2 = [] \/ exists f, evs2 = [EvCreate f loc]))
          as [evs2 [E2 H2]].
        { destruct Htr2 as [E|[f E]]; [exists []|exists [EvCreate f loc]];
            (split; [rewrite E; now rewrite ?app_nil_r|eauto]). }
        assert (exists evs3, trace s4 = trace s3 ++ evs3
                             /\ (evs3 = [] \/ exists f, evs3 = [EvCanCreate f loc]))
          as [evs3 [E3 H3]].
        { destruct Htr3 as [E|[f E]]; [exists []|exists [EvCanCreate f loc]];
            (split; [rewrite E; now rewrite ?app_nil_r|eauto]). }
        assert (Htr : trace s4 = trace s ++ evs1 ++ evs2 ++ evs3)
          by (rewrite E3, E2, Htr1, <- !app_assoc; reflexivity).
        exists (evs1 ++ evs2 ++ evs3). split; [exact Htr|].
        now apply build_calls with (loc := loc). }
      destruct component as [c|].
      * unfold bind at 1. unfold attempt at 1.
        destruct (BuildReferencesDecorator.clarifyLocator object this loc factory s3)
          as [[loc'|e] s4] eqn:Hl;
          pose proof (clarifyLocator_trace this loc factory s3 _ _ Hl) as Htr3.
        -- unfold bind, attempt.
           destruct (liftW (IReferences.put (ReferencesDecorator.parentReferences this) loc' c) s4)
             as [[u|e] s5] eqn:Hp;
             pose proof (liftW_trace _ _ _ _ Hp) as Hsame;
             unfold ret; intros H; inversion H; subst;
             apply Hshape; rewrite Hsame; exact Htr3.
        -- unfold ret. intros H. inversion H. subst. now apply Hshape.
      * unfold ret. intros H. inversion H. subst. apply Hshape. now left.
    + intros H. inversion H. subst.
      destruct Htr2 as [E2|[f2 E2]].
      * exists evs1. split; [now rewrite E2|].
        rewrite <- (app_nil_r evs1). change (@nil event) with (@nil event ++ @nil event).
        apply build_calls with (loc := loc); auto.
      * exists (evs1 ++ [EvCreate f2 loc] ++ []). split.
        -- now rewrite E2, Htr1, app_nil_r, <- app_assoc.
        -- apply build_calls with (loc := loc); eauto.
  - intros H. inversion H. subst. exists evs1. split; [exact Htr1|].
    rewrite <- (app_nil_r evs1). change (@nil event) with (@nil event ++ @nil event).
    apply build_calls with (loc := loc); auto.
Qed.

(** X17. Whatever a [find] of the build decorator does, the calls it makes
    on components are [canCreate] probes and [create] calls only, never an
    [open] or a [close], and at most one of them is a [create]: one lookup
    constructs at most one component. *)
Theorem find_creates_at_most_once (this : ReferencesDecorator.t Heap) loc required s :
  exists evs,
    trace (snd (BuildReferencesDecorator.find object this loc required s)) = trace s ++ evs
    /\ Forall (fun ev => is_probe ev = true \/ is_create ev = true) evs
    /\ List.length (filter is_create evs) <= 1.
Proof.
  unfold BuildReferencesDecorator.find. unfold bind at 1.
  destruct (ReferencesDecorator.find this loc false s) as [[cs0|e] s1] eqn:Hbase;
    pose proof (liftW_trace _ _ _ _ Hbase) as Hsame.
  - unfold bind.
    destruct ((if required && (List.length cs0 =? 0)
               then BuildReferencesDecorator.build object this loc cs0
               else ret (loc, cs0)) s1) as [r s2] eqn:Hstep.
    assert (Hext : exists evs,
               trace s2 = trace s ++ evs
               /\ Forall (fun ev => is_probe ev = true \/ is_create ev = true) evs
               /\ List.length (filter is_create evs) <= 1).
    { destruct (required && (List.length cs0 =? 0)).
      - destruct (build_trace this loc cs0 s1 r s2 Hstep) as [evs [Htr HQ]].
        exists evs. split; [now rewrite Htr, Hsame|exact HQ].
      - unfold ret in Hstep. inversion Hstep. subst.
        exists []. simpl. split; [now rewrite app_nil_r|]. split; [constructor|lia]. }
    destruct r as [[l cs1]|e]; [|exact Hext].
    simpl. destruct (required && (List.length cs1 =? 0)); exact Hext.
  - simpl. exists []. simpl. split; [now rewrite app_nil_r|]. split; [constructor|lia].
Qed.

End BuildPaths.

(** ** RunReferencesDecorator: removal and repeated calls *)

Section RunPaths.
Context {Heap : Type} (object : handle -> Component.t Heap).

(** X18. [remove] hands the locator to the base set. While the decorator
    is closed it returns what the base removed and calls no component.
    While it is opened, a removed component is closed at once, with no
    correlation id, if it can be closed: its close is the one call recorded
    and [remove] returns the component whether the close succeeded or
    failed. While it is opened and the base removed nothing, the close is
    attempted on null and [remove] throws a TypeError; no component is
    called. *)
Theorem remove_closes_when_opened
  (this : ReferencesDecorator.t Heap) loc (st : RunReferencesDecorator.State Heap) removed w1 :
  IReferences.remove (ReferencesDecorator.baseReferences this) loc
    (world (RunReferencesDecorator.sys st)) = (Ret removed, w1) ->
  (RunReferencesDecorator._opened st = false ->
   RunReferencesDecorator.remove object this loc st
   = (Ret removed,
      RunReferencesDecorator.new_State false
        (new_Sys w1 (trace (RunReferencesDecorator.sys st)))))
  /\ (RunReferencesDecorator._opened st = true ->
      removed = None ->
      RunReferencesDecorator.remove object this loc st
      = (Throw (TypeError "Cannot read property 'close' of null"),
         RunReferencesDecorator.new_State true
           (new_Sys w1 (trace (RunReferencesDecorator.sys st)))))
  /\ (forall c,
         RunReferencesDecorator._opened st = true ->
         removed = Some c ->
         (forall f,
             Component.close (object c) = Some f ->
             RunReferencesDecorator.remove object this loc st
             = (Ret (Some c),
                RunReferencesDecorator.new_State true
                  (new_Sys (snd (f None w1))
                     (trace (RunReferencesDecorator.sys st) ++ [EvClose c None]))))
         /\ (Component.close (object c) = None ->
             RunReferencesDecorator.remove object this loc st
             = (Ret (Some c),
                RunReferencesDecorator.new_State true
                  (new_Sys w1 (trace (RunReferencesDecorator.sys st)))))).
Proof.
  intros Hrem.
  assert (Hbase : RunReferencesDecorator.liftS (ReferencesDecorator.remove this loc) st
                  = (Ret removed,
                     RunReferencesDecorator.new_State (RunReferencesDecorator._opened st)
                       (new_Sys w1 (trace (RunReferencesDecorator.sys st))))).
  { apply liftS_run. unfold ReferencesDecorator.remove. now apply liftW_run. }
  unfold RunReferencesDecorator.remove.
  rewrite (bind_ret _ _ _ _ _ Hbase).
  unfold bind at 1 4 7 10. unfold RunReferencesDecorator.isOpen.
  cbn [RunReferencesDecorator._opened].
  split; [|split].
  - intros Hclosed. now rewrite Hclosed.
  - intros Hopened ->. now rewrite Hopened.
  - intros c Hopened ->. rewrite Hopened. split.
    + intros f Hf.
      unfold bind, RunReferencesDecorator.liftS, Closer.closeOne. simpl. rewrite Hf.
      unfold bind, attempt, invoke. simpl.
      destruct (f None w1) as [[u|e] w]; reflexivity.
    + intros Hnone.
      unfold bind, RunReferencesDecorator.liftS, Closer.closeOne. simpl. now rewrite Hnone.
Qed.

(** X19. [removeAll] hands the locator to the base set and returns every
    component the base removed. While the decorator is opened the removed
    components are closed as one batch with no correlation id, and the
    whole list is returned whatever that batch reports; while closed no
    component is called. *)
Theorem removeAll_closes_when_opened
  (this : ReferencesDecorator.t Heap) loc (st : RunReferencesDecorator.State Heap) removed w1 :
  IReferences.removeAll (ReferencesDecorator.baseReferences this) loc
    (world (RunReferencesDecorator.sys st)) = (Ret removed, w1) ->
  (RunReferencesDecorator._opened st = false ->
   RunReferencesDecorator.removeAll object this loc st
   = (Ret removed,
      RunReferencesDecorator.new_State false
        (new_Sys w1 (trace (RunReferencesDecorator.sys st)))))
  /\ (RunReferencesDecorator._opened st = true ->
      RunReferencesDecorator.removeAll object this loc st
      = (Ret removed,
         RunReferencesDecorator.new_State true
           (snd (Closer.close object None removed
                   (new_Sys w1 (trace (RunReferencesDecorator.sys st))))))).
Proof.
  intros Hrem.
  assert (Hbase : RunReferencesDecorator.liftS (ReferencesDecorator.removeAll this loc) st
                  = (Ret removed,
                     RunReferencesDecorator.new_State (RunReferencesDecorator._opened st)
                       (new_Sys w1 (trace (RunReferencesDecorator.sys st))))).
  { apply liftS_run. unfold ReferencesDecorator.removeAll. now apply liftW_run. }
  unfold RunReferencesDecorator.removeAll.
  rewrite (bind_ret _ _ _ _ _ Hbase).
  unfold bind at 1 4. unfold RunReferencesDecorator.isOpen. cbn [RunReferencesDecorator._opened].
  split.
  - intros Hclosed. now rewrite Hclosed.
  - intros Hopened. rewrite Hopened.
    destruct (close_returns object None removed
                (new_Sys w1 (trace (RunReferencesDecorator.sys st)))) as [err [s' Hbulk]].
    unfold bind, RunReferencesDecorator.liftS. simpl. now rewrite Hbulk.
Qed.

(** X20. [close] is idempotent: once a call of [close] has reported to its
    caller, with or without an error, a second call with no [open] in
    between reports no error and leaves the whole state as it is, so no
    component's close is called again. *)
Theorem close_twice
  (this : ReferencesDecorator.t Heap) cid cid' (st st1 : RunReferencesDecorator.State Heap) err :
  RunReferencesDecorator.close object this cid st = (Ret err, st1) ->
  RunReferencesDecorator.close object this cid' st1 = (Ret None, st1).
Proof.
  intros Hfirst.
  assert (Hflag : RunReferencesDecorator._opened st1 = false).
  { destruct (close_cases object this cid st _ _ Hfirst)
      as [[Hflag [_ ->]]|[[_ [[e He] _]]|[_ [_ Hflag']]]]; auto. discriminate. }
  unfold RunReferencesDecorator.close.
  unfold bind at 1. unfold RunReferencesDecorator.isOpen at 1. now rewrite Hflag.
Qed.

(** X21. When the base operation throws, [put], [remove] and [removeAll]
    throw the same error and call no component, opened or not: the trace
    and the flag are as before. *)
Theorem base_failure_propagates
  (this : ReferencesDecorator.t Heap) loc (st : RunReferencesDecorator.State Heap) e w1 :
  (forall component,
      IReferences.put (ReferencesDecorator.baseReferences this) loc component
        (world (RunReferencesDecorator.sys st)) = (Throw e, w1) ->
      RunReferencesDecorator.put object this loc component st
      = (Throw e, RunReferencesDecorator.new_State (RunReferencesDecorator._opened st)
                    (new_Sys w1 (trace (RunReferencesDecorator.sys st)))))
  /\ (IReferences.remove (ReferencesDecorator.baseReferences this) loc
        (world (RunReferencesDecorator.sys st)) = (Throw e, w1) ->
      RunReferencesDecorator.remove object this loc st
      = (Throw e, RunReferencesDecorator.new_State (RunReferencesDecorator._opened st)
                    (new_Sys w1 (trace (RunReferencesDecorator.sys st)))))
  /\ (IReferences.removeAll (ReferencesDecorator.baseReferences this) loc
        (world (RunReferencesDecorator.sys st)) = (Throw e, w1) ->
      RunReferencesDecorator.removeAll object this loc st
      = (Throw e, RunReferencesDecorator.new_State (RunReferencesDecorator._opened st)
                    (new_Sys w1 (trace (RunReferencesDecorator.sys st))))).
Proof.
  split; [|split].
  - intros component H. unfold RunReferencesDecorator.put.
    apply bind_throw. apply liftS_run. unfold ReferencesDecorator.put. now apply liftW_run.
  - intros H. unfold RunReferencesDecorator.remove.
    apply bind_throw. apply liftS_run. unfold ReferencesDecorator.remove. now apply liftW_run.
  - intros H. unfold RunReferencesDecorator.removeAll.
    apply bind_throw. apply liftS_run. unfold ReferencesDecorator.removeAll.
    now apply liftW_run.
Qed.

Lemma closeOne_failure cid c s f e w :
  Component.close (object c) = Some f ->
  f cid (world s) = (Throw e, w) ->
  Closer.closeOne object cid c s = (Ret (Some e), new_Sys w (trace s ++ [EvClose c cid])).
Proof.
  intros Hf He. unfold Closer.closeOne. rewrite Hf.
  unfold bind, attempt, invoke. now rewrite He.
Qed.

Lemma closeOne_success_trace cid c s s' :
  Closer.closeOne object cid c s = (Ret None, s') ->
  trace s' = trace s ++ (if has_close object c then [EvClose c cid] else []).
Proof.
  unfold Closer.closeOne, has_close. destruct (Component.close (object c)) as [f|]; simpl.
  - unfold bind, attempt, invoke. destruct (f cid (world s)) as [[u|e] w]; unfold ret;
      intros H; inversion H; reflexivity.
  - unfold ret. intros H. inversion H. now rewrite app_nil_r.
Qed.

Lemma close_success_trace cid comps s s' :
  Closer.close object cid comps s = (Ret None, s') ->
  trace s' = trace s ++ map (fun h => EvClose h cid) (filter (has_close object) comps).
Proof.
  revert s. induction comps as [|c comps IH]; intros s; simpl.
  - unfold ret. intros H. inversion H. now rewrite app_nil_r.
  - destruct (closeOne_returns object cid c s) as [err [s1 H1]].
    rewrite (bind_ret _ _ _ _ _ H1). destruct err as [e|]; [discriminate|].
    intros H. rewrite (IH _ H), (closeOne_success_trace _ _ _ _ H1).
    destruct (has_close object c); simpl; now rewrite <- app_assoc.
Qed.

Lemma close_app cid pre rest s s1 :
  Closer.close object cid pre s = (Ret None, s1) ->
  Closer.close object cid (pre ++ rest) s = Closer.close object cid rest s1.
Proof.
  revert s. induction pre as [|c pre IH]; intros s; simpl.
  - unfold ret. intros H. now inversion H.
  - destruct (closeOne_returns object cid c s) as [err [s2 H2]].
    rewrite !(bind_ret _ _ _ _ _ H2). destruct err as [e|]; [discriminate|]. apply IH.
Qed.

(** X22. [close] on an opened decorator, when the components before [c]
    close and the close of [c] fails with [e]: the error [e] is handed to
    the caller and the decorator is closed all the same, although the
    components after [c] were never asked to close (the trace ends with the
    close of [c]). *)
Theorem close_failure_skips_rest
  (this : ReferencesDecorator.t Heap) cid (st : RunReferencesDecorator.State Heap)
  pre c post w1 s1 f e w2 :
  RunReferencesDecorator._opened st = true ->
  IReferences.getAll (ReferencesDecorator.baseReferences this)
    (world (RunReferencesDecorator.sys st)) = (Ret (pre ++ c :: post), w1) ->
  Closer.close object cid pre (new_Sys w1 (trace (RunReferencesDecorator.sys st)))
  = (Ret None, s1) ->
  Component.close (object c) = Some f ->
  f cid (world s1) = (Throw e, w2) ->
  RunReferencesDecorator.close object this cid st
  = (Ret (Some e),
     RunReferencesDecorator.new_State false
       (new_Sys w2 (trace (RunReferencesDecorator.sys st)
                    ++ map (fun h => EvClose h cid) (filter (has_close object) pre)
                    ++ [EvClose c cid]))).
Proof.
  intros Hopened Hall Hpre Hf He.
  unfold RunReferencesDecorator.close.
  unfold bind at 1. unfold RunReferencesDecorator.isOpen at 1. rewrite Hopened.
  rewrite (bind_ret _ _ _ _ _ (getAll_run this st _ _ Hall)).
  assert (Hbulk : Closer.close object cid (pre ++ c :: post)
                    (new_Sys w1 (trace (RunReferencesDecorator.sys st)))
                  = (Ret (Some e), new_Sys w2 (trace s1 ++ [EvClose c cid]))).
  { rewrite (close_app _ _ _ _ _ Hpre). simpl.
    now rewrite (bind_ret _ _ _ _ _ (closeOne_failure cid c s1 f e w2 Hf He)). }
  rewrite (bind_ret _ _ _ _ _ (liftS_at _ _ _ _ _ Hbulk)).
  rewrite (close_success_trace _ _ _ _ Hpre). simpl.
  rewrite <- app_assoc. reflexivity.
Qed.

End RunPaths.

(** ** Concrete runs of the other paths *)

Lemma getConfigPath_first_witness :
  ProcessContainer.getConfigPath Cases.default_path
    ["run"; "-p"; "x=1"; "-c"; "a.yml"; "--config"; "b.yml"]%string
  = "a.yml"%string.
Proof.
  apply (getConfigPath_first Cases.default_path ["run"; "-p"; "x=1"]%string
           "-c" "a.yml" ["--config"; "b.yml"]%string).
  - intros a [<-|[<-|[<-|[]]]]; reflexivity.
  - reflexivity.
  - reflexivity.
Defined.

Lemma getConfigPath_default_witness :
  ProcessContainer.getConfigPath Cases.default_path ["run"; "-p"; "x=1"]%string
  = Cases.default_path
  /\ ProcessContainer.getConfigPath Cases.default_path
       (["run"; "-p"; "x=1"]%string ++ ["--config"]%string)
     = Cases.default_path
  /\ ProcessContainer.getConfigPath Cases.default_path
       (["run"; "-p"; "x=1"]%string ++ ["-c"; "-p"; "y=2"]%string)
     = Cases.default_path.
Proof.
  destruct (getConfigPath_default Cases.default_path ["run"; "-p"; "x=1"]%string)
    as [Hnone [Hlast Hdashed]].
  - intros a [<-|[<-|[<-|[]]]]; reflexivity.
  - split; [exact Hnone|]. split; [exact (Hlast "--config"%string)|].
    apply (Hdashed "-c"%string "-p"%string ["y=2"]%string); [reflexivity|].
    intros a [<-|[<-|[]]]; reflexivity.
Defined.

Lemma parameters_line_joined_witness :
  ProcessContainer.parameters_line ""
    (flat_map (fun fv => [fst fv; snd fv])
       [("-p", "x=1"); ("--params", "y=2"); ("--param", "z=3")]%string)
  = "x=1;y=2;z=3"%string.
Proof.
  apply (parameters_line_joined
           [("-p", "x=1"); ("--params", "y=2"); ("--param", "z=3")]%string).
  intros flag v [H|[H|[H|[]]]]; inversion H; subst;
    (split; [reflexivity|split; [discriminate|reflexivity]]).
Defined.

Lemma parameters_line_untouched_witness :
  ProcessContainer.parameters_line "" ["run"; "-c"; "a.yml"]%string = ""%string
  /\ ProcessContainer.parameters_line "" (["run"; "-c"; "a.yml"]%string ++ ["-p"]%string)
     = ""%string.
Proof.
  destruct (parameters_line_untouched "" ["run"; "-c"; "a.yml"]%string) as [Hnone Hlast].
  - intros a [<-|[<-|[<-|[]]]]; reflexivity.
  - split; [exact Hnone|exact (Hlast "-p"%string)].
Defined.

(** A help flag after a configuration path still wins. *)
Lemma run_help_only_witness :
  ProcessContainer.run Cases.fromString Cases.append Cases.readConfigFromFile Cases.open
    "svc" Cases.default_path ["HOME=/"%string] ["-c"; "a.yml"; "-h"]%string Cases.idle
  = (Ret tt,
     ProcessContainer.new_Process
       ["Pip.Services process container - http://www.github.com/pip-services/pip-services"%string;
        "run [-h] [-c <config file>] [-p <param>=<value>]*"%string]
       [] [] []).
Proof.
  apply (run_help_only Cases.fromString Cases.append Cases.readConfigFromFile Cases.open
           "svc" Cases.default_path ["HOME=/"%string] ["-c"; "a.yml"; "-h"]%string Cases.idle).
  right. right. right. now left.
Defined.

Lemma run_reads_then_opens_witness :
  ProcessContainer.run Cases.fromString Cases.append Cases.readConfigFromFile Cases.open
    "svc" Cases.default_path ["HOME=/"%string]
    ["-c"; "a.yml"; "-p"; "x=1"; "--params"; "y=2"]%string Cases.idle
  = (Ret tt,
     ProcessContainer.new_Process []
       [("svc", "Press Control-C to stop the microservice...")]%string
       ["uncaughtException"; "SIGINT"; "exit"]%string
       ["read"; "svc"; "a.yml"; "x=1;y=2"; "HOME=/"; "open"; "svc"]%string)
  /\ ProcessContainer.run Cases.fromString Cases.append Cases.unreadable Cases.open
       "svc" Cases.default_path ["HOME=/"%string] ["-c"; "a.yml"]%string Cases.idle
     = (Throw (JsError "no such file"), Cases.idle).
Proof.
  split.
  - apply (run_reads_then_opens Cases.fromString Cases.append Cases.readConfigFromFile
             Cases.open "svc" Cases.default_path ["HOME=/"%string]
             ["-c"; "a.yml"; "-p"; "x=1"; "--params"; "y=2"]%string Cases.idle
             (Ret tt) ["read"; "svc"; "a.yml"; "x=1;y=2"; "HOME=/"]%string);
      reflexivity.
  - apply (run_reads_then_opens Cases.fromString Cases.append Cases.unreadable
             Cases.open "svc" Cases.default_path ["HOME=/"%string]
             ["-c"; "a.yml"]%string Cases.idle
             (Throw (JsError "no such file")) []); reflexivity.
Defined.

(** Factory 6 accepts "logger" and fails to build it. *)
Lemma find_construction_failure_witness :
  BuildReferencesDecorator.find Cases.object Cases.decorator Scenario.logger true
    (Cases.system_of [Scenario.entry "f" 6])
  = (Throw (ReferenceException None Scenario.logger),
     new_Sys (Cases.world_of [Scenario.entry "f" 6] 0)
       [EvCanCreate 6 Scenario.logger; EvCreate 6 Scenario.logger]).
Proof.
  apply (find_construction_failure Cases.object Cases.decorator Scenario.logger
           (Cases.system_of [Scenario.entry "f" 6])
           (Cases.world_of [Scenario.entry "f" 6] 0)
           6 (new_Sys (Cases.world_of [Scenario.entry "f" 6] 0)
                [EvCanCreate 6 Scenario.logger])
           (Throw (JsError "cannot build"))); try reflexivity.
  discriminate.
Defined.

(** Factory 7 answers the first probe and throws on the second. *)
Lemma find_clarify_failure_witness :
  BuildReferencesDecorator.find Cases.object Cases.decorator
    (LDescriptor Scenario.partial) true (Cases.system_of [Scenario.entry "f" 7])
  = (Throw (ReferenceException None (LDescriptor Scenario.partial)),
     new_Sys (Cases.world_of [Scenario.entry "f" 7] 1)
       [EvCanCreate 7 (LDescriptor Scenario.partial);
        EvCreate 7 (LDescriptor Scenario.partial);
        EvCanCreate 7 (LDescriptor Scenario.partial)]).
Proof.
  apply (find_clarify_failure Cases.object Cases.decorator Scenario.partial
           (Cases.system_of [Scenario.entry "f" 7])
           (Cases.world_of [Scenario.entry "f" 7] 0)
           7 (new_Sys (Cases.world_of [Scenario.entry "f" 7] 1)
                [EvCanCreate 7 (LDescriptor Scenario.partial)])
           10 (new_Sys (Cases.world_of [Scenario.entry "f" 7] 1)
                 [EvCanCreate 7 (LDescriptor Scenario.partial);
                  EvCreate 7 (LDescriptor Scenario.partial)])
           (JsError "probe failed again")); reflexivity.
Defined.

(** A service, a factory that declines, the builder, and a factory after
    it: the declining factory is probed and passed over, the builder is
    returned, and the last factory is not reached. *)
Lemma findFactory_first_match_witness :
  exists s3,
    BuildReferencesDecorator.findFactory Cases.object Cases.decorator Scenario.logger
      (Cases.system_of Cases.mixed) = (Ret (Some 9), s3)
    /\ trace s3 = [EvCanCreate 8 Scenario.logger; EvCanCreate 9 Scenario.logger].
Proof.
  apply (findFactory_first_match Cases.object Cases.decorator Scenario.logger
           (Cases.system_of Cases.mixed) [3; 8] 9 [7] (Cases.world_of Cases.mixed 0)).
  - reflexivity.
  - intros c [<-|[<-|[]]]; [left; reflexivity|].
    right. intros s0. do 2 eexists. split; reflexivity.
  - split; [reflexivity|]. intros s0. do 2 eexists. split; reflexivity.
Defined.

Lemma findFactory_only_probes_witness :
  (exists evs,
      [EvCanCreate 2 Scenario.logger] = [] ++ evs
      /\ Forall (fun ev => exists c, ev = EvCanCreate c Scenario.logger
                                     /\ In c [3; 2; 1]
                                     /\ is_factory Scenario.object c = true) evs)
  /\ (forall f, Throw (JsError "probe failed") = Ret (Some f) ->
                In f [3; 2; 1] /\ is_factory Scenario.object f = true).
Proof.
  apply (findFactory_only_probes Scenario.object Scenario.two_sets Scenario.logger
           (Scenario.system_of Scenario.with_broken_probe []) [3; 2; 1]
           (Scenario.world_of Scenario.with_broken_probe [])
           (Throw (JsError "probe failed"))
           (new_Sys (Scenario.world_of Scenario.with_broken_probe [])
              [EvCanCreate 2 Scenario.logger])); reflexivity.
Defined.

(** The lookup that passes over the declining factory returns component
    10, which is what the builder's [create] returned. *)
Lemma find_required_result_witness :
  [10] <> []
  /\ exists f s2 c s3 loc' s4,
      BuildReferencesDecorator.findFactory Cases.object Cases.decorator
        (LDescriptor Scenario.partial) (new_Sys (Cases.world_of Cases.mixed 0) [])
      = (Ret (Some f), s2)
      /\ call_create Cases.object f (LDescriptor Scenario.partial) s2 = (Ret (Some c), s3)
      /\ BuildReferencesDecorator.clarifyLocator Cases.object Cases.decorator
           (LDescriptor Scenario.partial) (Some f) s3 = (Ret loc', s4)
      /\ fst (IReferences.put (ReferencesDecorator.parentReferences Cases.decorator)
                loc' c (world s4)) = Ret tt
      /\ [10] = [c].
Proof.
  destruct (find_required_result Cases.object Cases.decorator
              (LDescriptor Scenario.partial) (Cases.system_of Cases.mixed)
              [10]
              (snd (BuildReferencesDecorator.find Cases.object Cases.decorator
                      (LDescriptor Scenario.partial) true (Cases.system_of Cases.mixed)))
              eq_refl) as [Hne Hall].
  split; [exact Hne|].
  destruct (Hall [] (Cases.world_of Cases.mixed 0) eq_refl) as [[Hcontra _]|[_ Hbuilt]].
  - now elim Hcontra.
  - exact Hbuilt.
Defined.

(** A stored descriptor that matches the clarified one matches the
    original. *)
Lemma clarifyLocator_narrows_witness :
  matches
    (LDescriptor (new_Descriptor (Some "g"%string) None None (Some "n"%string) None))
    (LDescriptor Scenario.partial) = true.
Proof.
  apply (clarifyLocator_narrows Scenario.object Scenario.two_sets
           (LDescriptor Scenario.partial) (Some 1) (Scenario.system_of [] [])
           (LDescriptor (new_Descriptor (Some "g"%string) (Some "t"%string) (Some "k"%string)
                           (Some "n"%string) (Some "v"%string)))
           (new_Sys (Scenario.world_of [] []) [EvCanCreate 1 (LDescriptor Scenario.partial)]));
    reflexivity.
Defined.

(** Removing, while opened, the component whose close fails, and then a
    locator that nothing is stored under. *)
Lemma remove_closes_when_opened_witness :
  RunReferencesDecorator.remove Cases.object Cases.decorator (LStr "b")
    (Cases.opened_run Scenario.three_services)
  = (Ret (Some 4),
     RunReferencesDecorator.new_State true
       (new_Sys (References.update (Cases.world_of Scenario.three_services 0) 0
                   [Scenario.entry "a" 3; Scenario.entry "c" 10])
          [EvClose 4 None]))
  /\ RunReferencesDecorator.remove Cases.object Cases.decorator (LStr "nothing")
       (Cases.opened_run Scenario.three_services)
     = (Throw (TypeError "Cannot read property 'close' of null"),
        RunReferencesDecorator.new_State true
          (new_Sys (References.update (Cases.world_of Scenario.three_services 0) 0
                      Scenario.three_services)
             [])).
Proof.
  split.
  - apply (proj1 (proj2 (proj2 (remove_closes_when_opened Cases.object Cases.decorator
                                  (LStr "b") (Cases.opened_run Scenario.three_services)
                                  (Some 4)
                                  (References.update
                                     (Cases.world_of Scenario.three_services 0) 0
                                     [Scenario.entry "a" 3; Scenario.entry "c" 10])
                                  eq_refl))
                    4 eq_refl eq_refl)
             (fun _ => throw (JsError "close failed")) eq_refl).
  - apply (proj1 (proj2 (remove_closes_when_opened Cases.object Cases.decorator
                           (LStr "nothing") (Cases.opened_run Scenario.three_services)
                           None
                           (References.update
                              (Cases.world_of Scenario.three_services 0) 0
                              Scenario.three_services)
                           eq_refl))
             eq_refl eq_refl).
Defined.

(** Three components under one locator: all three are returned although
    the batch stopped at the second close. *)
Lemma removeAll_closes_when_opened_witness :
  fst (RunReferencesDecorator.removeAll Cases.object Cases.decorator (LStr "x")
         (Cases.opened_run
            [Scenario.entry "x" 3; Scenario.entry "x" 4; Scenario.entry "x" 10;
             Scenario.entry "y" 3]))
  = Ret [3; 4; 10]
  /\ trace (RunReferencesDecorator.sys
              (snd (RunReferencesDecorator.removeAll Cases.object Cases.decorator (LStr "x")
                      (Cases.opened_run
                         [Scenario.entry "x" 3; Scenario.entry "x" 4; Scenario.entry "x" 10;
                          Scenario.entry "y" 3]))))
     = [EvClose 3 None; EvClose 4 None].
Proof.
  rewrite (proj2 (removeAll_closes_when_opened Cases.object Cases.decorator (LStr "x")
                    (Cases.opened_run
                       [Scenario.entry "x" 3; Scenario.entry "x" 4; Scenario.entry "x" 10;
                        Scenario.entry "y" 3])
                    [3; 4; 10]
                    (References.update
                       (Cases.world_of
                          [Scenario.entry "x" 3; Scenario.entry "x" 4; Scenario.entry "x" 10;
                           Scenario.entry "y" 3] 0)
                       0 [Scenario.entry "y" 3])
                    eq_refl) eq_refl).
  split; reflexivity.
Defined.

Lemma close_twice_witness :
  RunReferencesDecorator.close Cases.object Cases.decorator None
    (snd (RunReferencesDecorator.close Cases.object Cases.decorator Scenario.c1
            (Cases.opened_run Scenario.three_services)))
  = (Ret None,
     snd (RunReferencesDecorator.close Cases.object Cases.decorator Scenario.c1
            (Cases.opened_run Scenario.three_services))).
Proof.
  apply (close_twice Cases.object Cases.decorator Scenario.c1 None
           (Cases.opened_run Scenario.three_services)
           (snd (RunReferencesDecorator.close Cases.object Cases.decorator Scenario.c1
                   (Cases.opened_run Scenario.three_services)))
           (Some (JsError "close failed"))).
  reflexivity.
Defined.

(** The second of three components fails to close: the third is not asked. *)
Lemma close_failure_skips_rest_witness :
  RunReferencesDecorator.close Cases.object Cases.decorator Scenario.c1
    (Cases.opened_run Scenario.three_services)
  = (Ret (Some (JsError "close failed")),
     RunReferencesDecorator.new_State false
       (new_Sys (Cases.world_of Scenario.three_services 0)
          ([] ++ map (fun h => EvClose h Scenario.c1) (filter (has_close Cases.object) [3])
              ++ [EvClose 4 Scenario.c1]))).
Proof.
  apply (close_failure_skips_rest Cases.object Cases.decorator Scenario.c1
           (Cases.opened_run Scenario.three_services) [3] 4 [10]
           (Cases.world_of Scenario.three_services 0)
           (new_Sys (Cases.world_of Scenario.three_services 0) [EvClose 3 Scenario.c1])
           (fun _ => throw (JsError "close failed"))); reflexivity.
Defined.
